(** * Diagnostic Tutor Prototype: a shallow embedding of [main.py]

    The development follows the source file top to bottom: the Python string
    primitives the program calls, the fragment of [re] its four patterns use,
    [InteractionLog], [normalize], the two detectors, and
    [analyze_expression].

    Text is modelled as [string], a sequence of 8-bit characters holding the
    UTF-8 encoding of the Python [str].  The hint texts are kept verbatim.
    [str.lower], [\d] and [int] are modelled on the ASCII range, which is
    where every pattern of the detectors lives; the Unicode case table and the
    non-ASCII decimal digits are outside the model.  Statements that hold of
    the source on ASCII text only carry that hypothesis ([is_ascii]).  The
    exceptions the source lets through and the store in which the log lives
    are in the module [Raising]. *)

From Stdlib Require Import ZArith List Bool Lia Ascii String.
Import ListNotations.

Open Scope string_scope.
Open Scope Z_scope.

(** ** Python string primitives *)

Module PyStr.

(** [str.replace(old, new)] for a non-empty [old]: occurrences are found left
    to right and do not overlap.  [skip] counts the characters of the current
    occurrence that are still to be dropped. *)
Fixpoint replace_from (old new s : string) (skip : nat) : string :=
  match s with
  | EmptyString => EmptyString
  | String c s' =>
      match skip with
      | S k => replace_from old new s' k
      | O =>
          if prefix old s
          then new ++ replace_from old new s' (String.length old - 1)%nat
          else String c (replace_from old new s' 0)
      end
  end.

Definition replace (old new s : string) : string := replace_from old new s 0.

(** ASCII upper-case letters, the ones [str.lower] changes inside ASCII. *)
Definition is_upper (c : ascii) : bool :=
  (("A" <=? c) && (c <=? "Z"))%char.

Definition lower_char (c : ascii) : ascii :=
  if is_upper c then ascii_of_N (N_of_ascii c + 32) else c.

(** [str.lower()]. *)
Fixpoint lower (s : string) : string :=
  match s with
  | EmptyString => EmptyString
  | String c s' => String (lower_char c) (lower s')
  end.

(** [sub in s]. *)
Definition contains (sub s : string) : bool :=
  match index 0 sub s with
  | Some _ => true
  | None => false
  end.

(** [s.split(sep, 1)] for a non-empty [sep]: one cut at the first occurrence. *)
Definition split1 (sep s : string) : list string :=
  match index 0 sep s with
  | Some i =>
      let j := (i + String.length sep)%nat in
      [substring 0 i s; substring j (String.length s - j)%nat s]
  | None => [s]
  end.

(** ASCII decimal digits, and [int] on a run of them (the program calls
    [int] only on text matched by [\d+]).  Python integers are unbounded. *)
Definition is_digit (c : ascii) : bool :=
  (("0" <=? c) && (c <=? "9"))%char.

Definition digit_val (c : ascii) : Z := Z.of_N (N_of_ascii c) - 48.

Fixpoint int_from (acc : Z) (s : string) : Z :=
  match s with
  | EmptyString => acc
  | String c s' => int_from (10 * acc + digit_val c) s'
  end.

Definition int (s : string) : Z := int_from 0 s.

Definition is_lower_az (c : ascii) : bool :=
  (("a" <=? c) && (c <=? "z"))%char.

(** The ASCII characters for which [str.isspace] holds. *)
Definition is_whitespace (c : ascii) : bool :=
  let n := N_of_ascii c in
  ((9 <=? n) && (n <=? 13) || (28 <=? n) && (n <=? 32))%N.

(** [sorted] on a list of strings, by [<] on strings. *)
Fixpoint insert_sorted (x : string) (l : list string) : list string :=
  match l with
  | [] => [x]
  | y :: l' => if String.ltb x y then x :: l else y :: insert_sorted x l'
  end.

Definition sorted (l : list string) : list string :=
  fold_right insert_sorted [] l.

(** [==] on lists of strings. *)
Fixpoint list_eqb (l1 l2 : list string) : bool :=
  match l1, l2 with
  | [], [] => true
  | x :: l1', y :: l2' => String.eqb x y && list_eqb l1' l2'
  | _, _ => false
  end.

End PyStr.

(** ** The fragment of [re] used by the detectors

    Literals, character classes, [?] on an atom, [+] on a character class and
    capturing groups (not nested), with Python's greedy, backtracking,
    leftmost semantics written in continuation-passing style: the
    continuation receives the unread text and the groups captured so far. *)

Module Re.

Inductive regex : Type :=
| Eps
| Lit (c : ascii)
| Class (p : ascii -> bool)
| Cat (r1 r2 : regex)
| Opt (r : regex)
| PlusClass (p : ascii -> bool)
| Group (r : regex).

Definition groups := list string.
Definition cont := string -> groups -> option groups.

(** [p+], greedy: take one more character if possible, give it back when the
    rest of the pattern fails. *)
Fixpoint plus_class (p : ascii -> bool) (s : string) (gs : groups) (k : cont)
  : option groups :=
  match s with
  | EmptyString => None
  | String c s' =>
      if p c then
        match plus_class p s' gs k with
        | Some r => Some r
        | None => k s' gs
        end
      else None
  end.

Fixpoint run (r : regex) (s : string) (gs : groups) (k : cont) : option groups :=
  match r with
  | Eps => k s gs
  | Lit c =>
      match s with
      | String c' s' => if (c =? c')%char then k s' gs else None
      | EmptyString => None
      end
  | Class p =>
      match s with
      | String c' s' => if p c' then k s' gs else None
      | EmptyString => None
      end
  | Cat r1 r2 => run r1 s gs (fun s' gs' => run r2 s' gs' k)
  | Opt r1 =>
      match run r1 s gs k with
      | Some res => Some res
      | None => k s gs
      end
  | PlusClass p => plus_class p s gs k
  | Group r1 =>
      run r1 s gs
        (fun s' gs' =>
           k s' (gs' ++ [substring 0 (String.length s - String.length s') s])%list)
  end.

(** [re.fullmatch(pattern, s)]: [Some] of [match.groups()], or [None]. *)
Definition fullmatch (r : regex) (s : string) : option groups :=
  run r s [] (fun s' gs => match s' with EmptyString => Some gs | _ => None end).

Definition seq (rs : list regex) : regex := fold_right Cat Eps rs.

(** A run of literal characters. *)
Fixpoint lit (s : string) : regex :=
  match s with
  | EmptyString => Eps
  | String c s' => Cat (Lit c) (lit s')
  end.

End Re.

Import PyStr Re.

(** ** [class InteractionLog] *)

Record InteractionLog : Type := mkLog {
  last_rule : option string;
  streak : Z
}.

(** [__init__] *)
Definition init_log : InteractionLog := mkLog None 0.

(** [rule_id == self.last_rule] for a [str] rule id and an [Optional[str]]
    field. *)
Definition rule_eqb (rule_id : string) (last : option string) : bool :=
  match last with
  | Some r => String.eqb rule_id r
  | None => false
  end.

(** [record]: the returned streak and the log after the call. *)
Definition record (rule_id : string) (log : InteractionLog) : Z * InteractionLog :=
  if rule_eqb rule_id (last_rule log)
  then (streak log + 1, mkLog (last_rule log) (streak log + 1))
  else (1, mkLog (Some rule_id) 1).

Definition reset (log : InteractionLog) : InteractionLog := mkLog None 0.

(** ** [normalize] *)

Definition normalize (expr : string) : string :=
  lower (replace " " "" expr).


(** ** Detection results and the hint texts of the source *)

(** [(rule_id, base_hint, escalated_hint)] *)
Definition DetectionResult : Type := (string * string * string)%type.

Definition power_specific_result : DetectionResult :=
  ("power_rule_missing_coefficient",
   "你似乎忘了冪次前的係數，回想一下 d/dx(x^n) 的前導常數應該是多少？",
   "你持續遺漏冪次求導的前導係數，請完整寫出 d/dx(x^n)=n·x^(n-1) 並檢查每一步。").

Definition power_general_result : DetectionResult :=
  ("power_rule_missing_coefficient",
   "冪次下降時需要把原本的指數乘到前面，確認一下前導係數是否遺漏。",
   "連續遺漏前導係數：請寫出一般公式並逐步帶入 n，確認計算與符號都未省略。").

Definition freshman_specific_result : DetectionResult :=
  ("freshman_dream",
   "請回想二項式展開公式：(a+b)^2 應該包含哪個混合項？",
   "你連續遺漏了二項式的交叉項 2ab，請完整展開並標示每一項係數後再合併。").

Definition freshman_general_result : DetectionResult :=
  ("freshman_dream",
   "展開平方時中間的 2ab 被拿掉了，再檢查一次完整的二項式定理。",
   "持續出現 Freshman's Dream：請寫出 (u+v)^2 = u^2 + 2uv + v^2 並檢驗各項次。").

Definition freshman_symbolic_result : DetectionResult :=
  ("freshman_dream",
   "好像少了混合項 2ab，試著完整展開後檢查每一項。",
   "多次缺少混合項：請逐步展開並明確寫出 2·(第一項)·(第二項) 的來源。").

Definition not_equal_hint : string :=
  "等式兩側似乎不相等，嘗試重新推導並檢查是否有省略或符號錯置。".

Definition neutral_hint : string :=
  "目前未偵測到特定迷思，請繼續嘗試或提供更多步驟。".

(** ** [hint_power_rule] *)

(** [r"d/dx\(?x\^?2\)?=x"] *)
Definition re_power_specific : regex :=
  seq [lit "d/dx"; Opt (Lit "("); Lit "x"; Opt (Lit "^"); Lit "2";
       Opt (Lit ")"); lit "=x"].

(** [r"d/dx\(?x\^?(\d+)\)?=x\^?(\d+)"] *)
Definition re_power_general : regex :=
  seq [lit "d/dx"; Opt (Lit "("); Lit "x"; Opt (Lit "^");
       Group (PlusClass is_digit); Opt (Lit ")"); lit "=x"; Opt (Lit "^");
       Group (PlusClass is_digit)].

Definition hint_power_rule (expr : string) : option DetectionResult :=
  let compact := normalize expr in
  match fullmatch re_power_specific compact with
  | Some _ => Some power_specific_result
  | None =>
      match fullmatch re_power_general compact with
      | Some [g1; g2] =>
          let n_left := int g1 in
          let n_right := int g2 in
          if (n_left - 1 =? n_right) && negb (n_left =? 1)
          then Some power_general_result
          else None
      | _ => None
      end
  end.

(** ** The optional collaborator [sympy]

    The library is not part of the program; the detectors use it through the
    calls below.  Every call that can raise returns an [option], [None]
    standing for a raised [Exception]. *)

Module Sympy.

Record API : Type := mkAPI {
  Expr : Type;
  sympify : string -> option Expr;
  simplify : string -> option Expr;
  expand : Expr -> option Expr;
  (** [left - right] *)
  sub : Expr -> Expr -> option Expr;
  (** [left != right] *)
  neb : Expr -> Expr -> bool;
  (** [list(e.free_symbols)] *)
  free_symbols : Expr -> option (list string);
  is_polynomial : Expr -> option bool;
  as_ordered_terms : Expr -> option (list Expr);
  (** [term.as_coeff_mul()[0]] *)
  as_coeff_mul_0 : Expr -> option Expr;
  (** [coeff == n] for a Python integer [n] *)
  eq_int : Expr -> Z -> bool;
  (** [term.as_poly().gens] *)
  as_poly_gens : Expr -> option (list string);
  (** the truth value of [sp.Eq(left, right)] *)
  Eq_truth : Expr -> Expr -> option bool
}.

End Sympy.

Import Sympy.

(** Sequencing of calls that may raise, inside one [try] block. *)
Definition Exc (A : Type) : Type := option A.

Definition bindE {A B : Type} (m : Exc A) (f : A -> Exc B) : Exc B :=
  match m with
  | Some a => f a
  | None => None
  end.

Notation "x <- m ;; k" := (bindE m (fun x => k))
  (at level 61, m at next level, right associativity).

(** [len(l) >= n] *)
Definition len_ge {A : Type} (l : list A) (n : Z) : bool :=
  n <=? Z.of_nat (List.length l).

(** ** [hint_freshman_dream] *)

(** [r"\(a\+b\)\^2=a\^2\+b\^2"] *)
Definition re_freshman_specific : regex := lit "(a+b)^2=a^2+b^2".

(** [r"\(([a-z]+)\+([a-z]+)\)\^2=([a-z]+)\^2\+([a-z]+)\^2"] *)
Definition re_freshman_general : regex :=
  seq [Lit "("; Group (PlusClass is_lower_az); Lit "+";
       Group (PlusClass is_lower_az); lit ")^2=";
       Group (PlusClass is_lower_az); lit "^2+";
       Group (PlusClass is_lower_az); lit "^2"].

(** The [for term in terms] loop of the symbolic fallback.  The outer option
    is the exception, the inner one the [return] from inside the loop. *)
Fixpoint scan_terms (api : API) (terms : list (Expr api))
  : Exc (option DetectionResult) :=
  match terms with
  | [] => Some None
  | term :: terms' =>
      coeff <- as_coeff_mul_0 api term ;;
      is_poly <- is_polynomial api term ;;
      vars_in_term <- (if is_poly then as_poly_gens api term else Some []) ;;
      if eq_int api coeff 2 && len_ge vars_in_term 2
      then Some (Some freshman_symbolic_result)
      else scan_terms api terms'
  end.

(** The body of the [try] block of the symbolic fallback. *)
Definition freshman_try (api : API) (left_raw right_raw : string)
  : Exc (option DetectionResult) :=
  l0 <- sympify api left_raw ;;
  left <- expand api l0 ;;
  r0 <- sympify api right_raw ;;
  right <- expand api r0 ;;
  if neb api left right then
    d0 <- sub api left right ;;
    diff <- expand api d0 ;;
    symbols <- free_symbols api diff ;;
    go <- (if len_ge symbols 2 then is_polynomial api diff else Some false) ;;
    if go then
      terms <- as_ordered_terms api diff ;;
      scan_terms api terms
    else Some None
  else Some None.

(** ** Calls on the log *)

(** The calls a piece of code makes on its log, in order, each continued with
    the value the call returns. *)
Inductive LogProg (A : Type) : Type :=
| Ret (a : A)
| CallRecord (rule_id : string) (k : Z -> LogProg A)
| CallReset (k : LogProg A).

Arguments Ret {A} a.
Arguments CallRecord {A} rule_id k.
Arguments CallReset {A} k.

Inductive LogCall : Type :=
| Record_ (rule_id : string)
| Reset_.

(** Running the calls on a log: the value returned and the log afterwards. *)
Fixpoint exec {A : Type} (p : LogProg A) (log : InteractionLog)
  : A * InteractionLog :=
  match p with
  | Ret a => (a, log)
  | CallRecord rule_id k =>
      let (n, log') := record rule_id log in exec (k n) log'
  | CallReset k => exec k (reset log)
  end.

(** The calls made during that run. *)
Fixpoint calls {A : Type} (p : LogProg A) (log : InteractionLog)
  : list LogCall :=
  match p with
  | Ret _ => []
  | CallRecord rule_id k =>
      let (n, log') := record rule_id log in Record_ rule_id :: calls (k n) log'
  | CallReset k => Reset_ :: calls k (reset log)
  end.

Section Tutor.

(** [None] when the import of sympy failed ([SYMPY_AVAILABLE = False]). *)
Variable sp : option API.

(** The symbolic fallback, from [if SYMPY_AVAILABLE and "=" in expr] to the
    final [return None].  The unpacking of [split] cannot fail: ["="] occurs
    in [expr]. *)
Definition freshman_fallback (expr : string) : option DetectionResult :=
  match sp with
  | Some api =>
      if contains "=" expr then
        match split1 "=" expr with
        | [left_raw; right_raw] =>
            match freshman_try api left_raw right_raw with
            | Some (Some res) => Some res
            | _ => None
            end
        | _ => None
        end
      else None
  | None => None
  end.

Definition hint_freshman_dream (expr : string) : option DetectionResult :=
  let compact := normalize expr in
  match fullmatch re_freshman_specific compact with
  | Some _ => Some freshman_specific_result
  | None =>
      match
        match fullmatch re_freshman_general compact with
        | Some [left_a; left_b; right_a; right_b] =>
            let same_vars :=
              list_eqb (sorted [left_a; left_b]) (sorted [right_a; right_b]) in
            if same_vars then Some freshman_general_result else None
        | _ => None
        end
      with
      | Some res => Some res
      | None => freshman_fallback expr
      end
  end.

(** ** [analyze_expression] *)

Definition PEDAGOGICAL_GRAPH_NODES : list (string -> option DetectionResult) :=
  [hint_power_rule; hint_freshman_dream].

(** The body of the [try] block of the equality check. *)
Definition equality_try (api : API) (left_raw right_raw : string)
  : Exc (option string) :=
  left <- simplify api left_raw ;;
  right <- simplify api right_raw ;;
  eq <- Eq_truth api left right ;;
  if negb eq then Some (Some not_equal_hint) else Some None.

(** What follows [log.reset()]. *)
Definition after_reset (expr : string) : string :=
  match sp with
  | Some api =>
      if contains "=" expr then
        match split1 "=" expr with
        | [left_raw; right_raw] =>
            match equality_try api left_raw right_raw with
            | Some (Some hint) => hint
            | _ => neutral_hint
            end
        | _ => neutral_hint
        end
      else neutral_hint
  | None => neutral_hint
  end.

(** The [for detector in PEDAGOGICAL_GRAPH_NODES] loop; [otherwise] is the
    code after the loop. *)
Fixpoint detector_loop (nodes : list (string -> option DetectionResult))
  (expr : string) (otherwise : LogProg string) : LogProg string :=
  match nodes with
  | [] => otherwise
  | detector :: nodes' =>
      match detector expr with
      | Some (rule_id, base_hint, escalated_hint) =>
          CallRecord rule_id
            (fun streak =>
               Ret (if streak >=? 2 then escalated_hint else base_hint))
      | None => detector_loop nodes' expr otherwise
      end
  end.

Definition analyze_body (expr : string) : LogProg string :=
  detector_loop PEDAGOGICAL_GRAPH_NODES expr
    (CallReset (Ret (after_reset expr))).

(** [analyze_expression(expr, log)]: the hint returned and the log after the
    call. *)
Definition analyze_expression (expr : string) (log : InteractionLog)
  : string * InteractionLog :=
  exec (analyze_body expr) log.

(** The first detector of the list that matches, if any. *)
Fixpoint first_detection (nodes : list (string -> option DetectionResult))
  (expr : string) : option DetectionResult :=
  match nodes with
  | [] => None
  | detector :: nodes' =>
      match detector expr with
      | Some res => Some res
      | None => first_detection nodes' expr
      end
  end.

End Tutor.


(** ** An instance of the collaborator

    Polynomials with integer coefficients, kept expanded: a sum of monomials
    in canonical order without zero coefficients.  On sums, products and
    integer powers of symbols it computes what sympy's [expand] computes, which
    is all the statements below ask of it. *)

Module PolySympy.

(** A monomial: the symbols with their exponents, ordered by name. *)
Definition mono : Type := list (string * nat).
Definition poly : Type := list (mono * Z).

Fixpoint mono_insert (x : string) (e : nat) (m : mono) : mono :=
  match m with
  | [] => [(x, e)]
  | (y, f) :: m' =>
      match String.compare x y with
      | Eq => (y, (e + f)%nat) :: m'
      | Lt => (x, e) :: m
      | Gt => (y, f) :: mono_insert x e m'
      end
  end.

Definition mono_mul (m1 m2 : mono) : mono :=
  fold_right (fun xe acc => mono_insert (fst xe) (snd xe) acc) m2 m1.

Fixpoint mono_compare (m1 m2 : mono) : comparison :=
  match m1, m2 with
  | [], [] => Eq
  | [], _ :: _ => Lt
  | _ :: _, [] => Gt
  | (x, e) :: m1', (y, f) :: m2' =>
      match String.compare x y with
      | Eq =>
          match Nat.compare e f with
          | Eq => mono_compare m1' m2'
          | c => c
          end
      | c => c
      end
  end.

Fixpoint poly_insert (m : mono) (c : Z) (p : poly) : poly :=
  match p with
  | [] => if c =? 0 then [] else [(m, c)]
  | (m', c') :: p' =>
      match mono_compare m m' with
      | Eq => if c + c' =? 0 then p' else (m', c + c') :: p'
      | Lt => if c =? 0 then p else (m, c) :: p
      | Gt => (m', c') :: poly_insert m c p'
      end
  end.

Definition poly_add (p q : poly) : poly :=
  fold_right (fun mc acc => poly_insert (fst mc) (snd mc) acc) q p.

Definition poly_neg (p : poly) : poly :=
  map (fun mc => (fst mc, - snd mc)) p.

Definition poly_mul (p q : poly) : poly :=
  fold_right
    (fun mc acc =>
       poly_add
         (map (fun mc' => (mono_mul (fst mc) (fst mc'), snd mc * snd mc')) q)
         acc)
    [] p.

Definition poly_const (c : Z) : poly := poly_insert [] c [].
Definition poly_var (x : string) : poly := [([(x, 1%nat)], 1)].

Fixpoint poly_pow (p : poly) (n : nat) : poly :=
  match n with
  | O => poly_const 1
  | S n' => poly_mul p (poly_pow p n')
  end.

Definition mono_eqb (m1 m2 : mono) : bool :=
  match mono_compare m1 m2 with Eq => true | _ => false end.

Fixpoint poly_eqb (p q : poly) : bool :=
  match p, q with
  | [], [] => true
  | (m, c) :: p', (m', c') :: q' => mono_eqb m m' && (c =? c') && poly_eqb p' q'
  | _, _ => false
  end.

(** The symbols of a polynomial, each once. *)
Definition poly_symbols (p : poly) : list string :=
  map fst (fold_right (fun mc acc => mono_mul (fst mc) acc) [] p).

(** *** Reading an expression: identifiers, integers, [+ - * ^] and
    parentheses, blanks skipped, [^] read as a power. *)

Inductive token : Type :=
| TId (x : string)
| TNum (digits : string)
| TPlus | TMinus | TStar | TCaret | TLParen | TRParen.

Definition is_letter (c : ascii) : bool := is_lower_az c || is_upper c.

Definition starts_with (p : ascii -> bool) (s : string) : bool :=
  match s with
  | String c _ => p c
  | EmptyString => false
  end.

Fixpoint lex (s : string) : option (list token) :=
  match s with
  | EmptyString => Some []
  | String c s' =>
      match lex s' with
      | None => None
      | Some ts =>
          if is_letter c then
            match ts with
            | TId x :: ts' =>
                if starts_with is_letter s' then Some (TId (String c x) :: ts')
                else Some (TId (String c "") :: ts)
            | _ => Some (TId (String c "") :: ts)
            end
          else if is_digit c then
            match ts with
            | TNum d :: ts' =>
                if starts_with is_digit s' then Some (TNum (String c d) :: ts')
                else Some (TNum (String c "") :: ts)
            | _ => Some (TNum (String c "") :: ts)
            end
          else if (c =? " ")%char then Some ts
          else if (c =? "+")%char then Some (TPlus :: ts)
          else if (c =? "-")%char then Some (TMinus :: ts)
          else if (c =? "*")%char then Some (TStar :: ts)
          else if (c =? "^")%char then Some (TCaret :: ts)
          else if (c =? "(")%char then Some (TLParen :: ts)
          else if (c =? ")")%char then Some (TRParen :: ts)
          else None
      end
  end.

Fixpoint parse_sum (fuel : nat) (ts : list token) : option (poly * list token) :=
  match fuel with
  | O => None
  | S f =>
      match parse_prod f ts with
      | Some (p, rest) => sum_tail f p rest
      | None => None
      end
  end
with sum_tail (fuel : nat) (acc : poly) (ts : list token)
  : option (poly * list token) :=
  match fuel with
  | O => None
  | S f =>
      match ts with
      | TPlus :: rest =>
          match parse_prod f rest with
          | Some (q, rest') => sum_tail f (poly_add acc q) rest'
          | None => None
          end
      | TMinus :: rest =>
          match parse_prod f rest with
          | Some (q, rest') => sum_tail f (poly_add acc (poly_neg q)) rest'
          | None => None
          end
      | _ => Some (acc, ts)
      end
  end
with parse_prod (fuel : nat) (ts : list token) : option (poly * list token) :=
  match fuel with
  | O => None
  | S f =>
      match parse_power f ts with
      | Some (p, rest) => prod_tail f p rest
      | None => None
      end
  end
with prod_tail (fuel : nat) (acc : poly) (ts : list token)
  : option (poly * list token) :=
  match fuel with
  | O => None
  | S f =>
      match ts with
      | TStar :: rest =>
          match parse_power f rest with
          | Some (q, rest') => prod_tail f (poly_mul acc q) rest'
          | None => None
          end
      | _ => Some (acc, ts)
      end
  end
with parse_power (fuel : nat) (ts : list token) : option (poly * list token) :=
  match fuel with
  | O => None
  | S f =>
      match parse_atom f ts with
      | Some (p, TCaret :: TNum d :: rest) =>
          Some (poly_pow p (Z.to_nat (int d)), rest)
      | Some (_, TCaret :: _) => None
      | other => other
      end
  end
with parse_atom (fuel : nat) (ts : list token) : option (poly * list token) :=
  match fuel with
  | O => None
  | S f =>
      match ts with
      | TId x :: rest => Some (poly_var x, rest)
      | TNum d :: rest => Some (poly_const (int d), rest)
      | TLParen :: rest =>
          match parse_sum f rest with
          | Some (p, TRParen :: rest') => Some (p, rest')
          | _ => None
          end
      | _ => None
      end
  end.

Definition parse (s : string) : option poly :=
  match lex s with
  | Some ts =>
      match parse_sum (6 * List.length ts + 6) ts with
      | Some (p, []) => Some p
      | _ => None
      end
  | None => None
  end.

(** [term.as_coeff_mul()[0]]: the coefficient of a single term, 1 for a sum. *)
Definition coeff_of (p : poly) : poly :=
  match p with
  | [(_, c)] => poly_const c
  | _ => poly_const 1
  end.

(** [term.as_poly().gens]; a constant has no polynomial form. *)
Definition gens_of (p : poly) : option (list string) :=
  match poly_symbols p with
  | [] => None
  | xs => Some xs
  end.

(** [sp.Eq] decides equal sides and sides that differ by a constant, and
    stays undecided otherwise. *)
Definition eq_truth (p q : poly) : option bool :=
  if poly_eqb p q then Some true
  else
    match poly_symbols (poly_add p (poly_neg q)) with
    | [] => Some false
    | _ => None
    end.

(** The terms are listed from the highest monomial down, a constant last. *)
Definition api : Sympy.API :=
  {| Sympy.Expr := poly;
     Sympy.sympify := parse;
     Sympy.simplify := parse;
     Sympy.expand := fun p => Some p;
     Sympy.sub := fun p q => Some (poly_add p (poly_neg q));
     Sympy.neb := fun p q => negb (poly_eqb p q);
     Sympy.free_symbols := fun p => Some (poly_symbols p);
     Sympy.is_polynomial := fun _ => Some true;
     Sympy.as_ordered_terms := fun p => Some (rev (map (fun mc => [mc]) p));
     Sympy.as_coeff_mul_0 := fun p => Some (coeff_of p);
     Sympy.eq_int := fun p n => poly_eqb p (poly_const n);
     Sympy.as_poly_gens := gens_of;
     Sympy.Eq_truth := eq_truth |}.

End PolySympy.


(** ** The state machine of the specification, for comparison with [record] *)

(** [idle] and [active(rule_id, n)]. *)
Inductive LogState : Type :=
| Idle
| Active (rule_id : string) (n : Z).

(** The machine state a log is in: decided by [last_rule] alone. *)
Definition state_of (log : InteractionLog) : LogState :=
  match last_rule log with
  | Some r => Active r (streak log)
  | None => Idle
  end.

(** [record] as the specification words it: from [active(rule_id, n)] to
    [active(rule_id, n+1)], from any other state to [active(rule_id, 1)];
    the resulting streak is returned. *)
Definition spec_record (rule_id : string) (st : LogState) : Z * LogState :=
  match st with
  | Active r n =>
      if String.eqb r rule_id then (n + 1, Active rule_id (n + 1))
      else (1, Active rule_id 1)
  | Idle => (1, Active rule_id 1)
  end.

(** The invariant on the two fields. *)
Definition log_inv (log : InteractionLog) : Prop :=
  match last_rule log with
  | Some _ => streak log >= 1
  | None => streak log = 0
  end.

(** The characters of a text. *)
Definition chars (s : string) : list ascii := list_ascii_of_string s.

Definition is_space (c : ascii) : bool := (c =? " ")%char.

(** What a pattern matches, read off the pattern: [matches r s gs] when [r]
    matches the whole of [s] and its groups capture [gs], in the order in
    which the groups close. *)
Inductive matches : regex -> string -> groups -> Prop :=
| M_Eps : matches Eps "" []
| M_Lit c : matches (Lit c) (String c "") []
| M_Class p c : p c = true -> matches (Class p) (String c "") []
| M_Cat r1 r2 s1 s2 gs1 gs2 :
    matches r1 s1 gs1 -> matches r2 s2 gs2 ->
    matches (Cat r1 r2) (s1 ++ s2) (gs1 ++ gs2)%list
| M_OptNone r : matches (Opt r) "" []
| M_OptSome r s gs : matches r s gs -> matches (Opt r) s gs
| M_Plus p c s :
    p c = true -> forallb p (chars s) = true ->
    matches (PlusClass p) (String c s) []
| M_Group r s gs : matches r s gs -> matches (Group r) s (gs ++ [s])%list.

(** A non-empty run of characters of one class. *)
Definition run_of (p : ascii -> bool) (s : string) : Prop :=
  s <> "" /\ forallb p (chars s) = true.

(** An optional character: the empty text or the character. *)
Definition opt_char (c : ascii) (s : string) : Prop :=
  s = "" \/ s = String c "".

(** The shape d/dx(x^N)=x^M: N and M runs of digits, both parentheses and
    both carets optional. *)
Definition power_shape (s N M : string) : Prop :=
  exists o1 o2 o3 o4,
    s = "d/dx" ++ o1 ++ "x" ++ o2 ++ N ++ o3 ++ "=x" ++ o4 ++ M
    /\ opt_char "(" o1 /\ opt_char "^" o2 /\ opt_char ")" o3 /\ opt_char "^" o4
    /\ run_of is_digit N /\ run_of is_digit M.

(** The shape (U+V)^2=P^2+Q^2: U, V, P and Q runs of lower-case letters. *)
Definition binomial_shape (s U V P Q : string) : Prop :=
  s = "(" ++ U ++ "+" ++ V ++ ")^2=" ++ P ++ "^2+" ++ Q ++ "^2"
  /\ run_of is_lower_az U /\ run_of is_lower_az V
  /\ run_of is_lower_az P /\ run_of is_lower_az Q.


(** ** [main] *)

(** [str.strip()]: the ASCII whitespace at both ends is dropped. *)
Fixpoint lstrip (s : string) : string :=
  match s with
  | EmptyString => EmptyString
  | String c s' => if is_whitespace c then lstrip s' else s
  end.

Fixpoint rstrip (s : string) : string :=
  match s with
  | EmptyString => EmptyString
  | String c s' =>
      match rstrip s' with
      | EmptyString =>
          if is_whitespace c then EmptyString else String c EmptyString
      | r => String c r
      end
  end.

Definition strip (s : string) : string := rstrip (lstrip s).

(** What [main] writes on standard output: a [print]ed line, or the prompt
    [input] writes without a newline. *)
Inductive Output : Type :=
| Print (line : string)
| Prompt (text : string).

(** How [main] ends: it returns, or it is left by an exception that it does
    not catch: the [EOFError] of [input] when standard input is exhausted,
    or whatever [analyze_expression] raises. *)
Inductive Outcome : Type :=
| Returned
| Raised (exn : string).

Definition banner : string := "=== Diagnostic Tutor Prototype ===".
Definition usage : string := "輸入一條數學算式讓導師診斷，輸入 'exit' 以離開。".
Definition prompt : string := String "010" "算式> ".
Definition farewell : string := "結束對話，再見。".
Definition hint_prefix : string := "導師提示：".

(** The test that ends the loop: [user_input == "" or user_input.lower() ==
    "exit"]. *)
Definition quits (user_input : string) : bool :=
  String.eqb user_input "" || String.eqb (lower user_input) "exit".

(** ** The same code with its raises and its store

    The functions above give a value for every text and work on a log value.
    Two calls of the source can instead end in an exception that nothing
    catches: [int], which CPython makes raise [ValueError] on a text of more
    digits than [sys.get_int_max_str_digits()] (4300 unless changed, 0 for no
    limit), and a call on sympy that raises outside the [Exception]
    hierarchy ([SystemExit], [KeyboardInterrupt]), which [except Exception]
    lets through.  And the log is an object in the store, shared with the
    caller, on which [record] and [reset] assign two fields.  The functions
    of [Raising] are the functions of the source with these raises and this
    store. *)

Inductive Result (A : Type) : Type :=
| Returns (a : A)
| Raises (exn : string).

Arguments Returns {A} a.
Arguments Raises {A} exn.

(** Text of characters below 128: on such text the models of [str.lower],
    [str.strip], [\d] and [str.isspace] are Python's. *)
Definition is_ascii (s : string) : bool :=
  forallb (fun c => (N_of_ascii c <? 128)%N) (chars s).

(** What leaves a [try] block of the source although it has an [except
    Exception]: for the two sides handed to sympy, the exception outside the
    [Exception] hierarchy that a call of the block raises, if one does; the
    symbolic fallback of the binomial detector and the equality check each
    have their block. *)
Record Escapes : Type := mkEscapes {
  from_fallback : string -> string -> option string;
  from_check : string -> string -> option string
}.

Definition no_escape : Escapes :=
  {| from_fallback := fun _ _ => None; from_check := fun _ _ => None |}.

(** The store: the [InteractionLog] objects by address. *)
Definition Heap : Type := nat -> option InteractionLog.

Definition store (h : Heap) (l : nat) (log : InteractionLog) : Heap :=
  fun l' => if Nat.eqb l' l then Some log else h l'.

Definition empty_heap : Heap := fun _ => None.

Module Raising.

Section Raising.

(** [sys.get_int_max_str_digits()] *)
Variable max_str_digits : nat.
Variable sp : option API.
Variable esc : Escapes.

(** [int] on a run of digits. *)
Definition int (s : string) : Result Z :=
  if ((0 <? max_str_digits) && (max_str_digits <? String.length s))%nat
  then Raises "ValueError"
  else Returns (PyStr.int s).

Definition hint_power_rule (expr : string) : Result (option DetectionResult) :=
  let compact := normalize expr in
  match fullmatch re_power_specific compact with
  | Some _ => Returns (Some power_specific_result)
  | None =>
      match fullmatch re_power_general compact with
      | Some [g1; g2] =>
          match int g1 with
          | Raises exn => Raises exn
          | Returns n_left =>
              match int g2 with
              | Raises exn => Raises exn
              | Returns n_right =>
                  if (n_left - 1 =? n_right) && negb (n_left =? 1)
                  then Returns (Some power_general_result)
                  else Returns None
              end
          end
      | _ => Returns None
      end
  end.

Definition hint_freshman_dream (expr : string)
  : Result (option DetectionResult) :=
  let compact := normalize expr in
  match fullmatch re_freshman_specific compact with
  | Some _ => Returns (Some freshman_specific_result)
  | None =>
      match
        match fullmatch re_freshman_general compact with
        | Some [left_a; left_b; right_a; right_b] =>
            let same_vars :=
              list_eqb (sorted [left_a; left_b]) (sorted [right_a; right_b]) in
            if same_vars then Some freshman_general_result else None
        | _ => None
        end
      with
      | Some res => Returns (Some res)
      | None =>
          match sp with
          | Some api =>
              if contains "=" expr then
                match split1 "=" expr with
                | [left_raw; right_raw] =>
                    match from_fallback esc left_raw right_raw with
                    | Some exn => Raises exn
                    | None =>
                        match freshman_try api left_raw right_raw with
                        | Some (Some res) => Returns (Some res)
                        | _ => Returns None
                        end
                    end
                | _ => Returns None
                end
              else Returns None
          | None => Returns None
          end
      end
  end.

Definition PEDAGOGICAL_GRAPH_NODES
  : list (string -> Result (option DetectionResult)) :=
  [hint_power_rule; hint_freshman_dream].

(** [log.record(rule_id)] and [log.reset()] on the object at [l]; there is
    no such method to call when [l] holds no [InteractionLog]. *)
Definition record_at (rule_id : string) (l : nat) (h : Heap)
  : Result Z * Heap :=
  match h l with
  | Some log =>
      let (streak, log') := record rule_id log in (Returns streak, store h l log')
  | None => (Raises "AttributeError", h)
  end.

Definition reset_at (l : nat) (h : Heap) : Result unit * Heap :=
  match h l with
  | Some log => (Returns tt, store h l (reset log))
  | None => (Raises "AttributeError", h)
  end.

(** What follows [log.reset()]. *)
Definition after_reset (expr : string) : Result string :=
  match sp with
  | Some api =>
      if contains "=" expr then
        match split1 "=" expr with
        | [left_raw; right_raw] =>
            match from_check esc left_raw right_raw with
            | Some exn => Raises exn
            | None =>
                match equality_try api left_raw right_raw with
                | Some (Some hint) => Returns hint
                | _ => Returns neutral_hint
                end
            end
        | _ => Returns neutral_hint
        end
      else Returns neutral_hint
  | None => Returns neutral_hint
  end.

(** The loop over the detectors: the outcome, the store afterwards and the
    calls made on the log; [otherwise] is the code after the loop. *)
Fixpoint detector_loop
  (nodes : list (string -> Result (option DetectionResult)))
  (expr : string) (l : nat) (h : Heap)
  (otherwise : Result string * Heap * list LogCall)
  : Result string * Heap * list LogCall :=
  match nodes with
  | [] => otherwise
  | detector :: nodes' =>
      match detector expr with
      | Raises exn => (Raises exn, h, [])
      | Returns (Some (rule_id, base_hint, escalated_hint)) =>
          match record_at rule_id l h with
          | (Returns streak, h') =>
              (Returns (if streak >=? 2 then escalated_hint else base_hint),
               h', [Record_ rule_id])
          | (Raises exn, h') => (Raises exn, h', [])
          end
      | Returns None => detector_loop nodes' expr l h otherwise
      end
  end.

(** [analyze_expression(expr, log)], [log] being the object at [l]. *)
Definition analyze_expression (expr : string) (l : nat) (h : Heap)
  : Result string * Heap * list LogCall :=
  detector_loop PEDAGOGICAL_GRAPH_NODES expr l h
    match reset_at l h with
    | (Returns _, h') => (after_reset expr, h', [Reset_])
    | (Raises exn, h') => (Raises exn, h', [])
    end.

(** The [while True] loop of [main].  Standard input is the list of the lines
    still to be read; the result is what was written, how the loop ended,
    the lines left unread and the expressions handed to
    [analyze_expression]. *)
Fixpoint main_loop (stdin : list string) (l : nat) (h : Heap)
  : list Output * Outcome * list string * list string :=
  match stdin with
  | [] => ([Prompt prompt], Raised "EOFError", [], [])
  | line :: stdin' =>
      let user_input := strip line in
      if quits user_input
      then ([Prompt prompt; Print farewell], Returned, stdin', [])
      else
        match analyze_expression user_input l h with
        | (Returns hint, h', _) =>
            let '(out, outcome, unread, analysed) := main_loop stdin' l h' in
            (Prompt prompt :: Print (hint_prefix ++ hint) :: out,
             outcome, unread, user_input :: analysed)
        | (Raises exn, _, _) =>
            ([Prompt prompt], Raised exn, stdin', [user_input])
        end
  end.

(** [main]: its log is a new object, here at address 0 of a store of its
    own. *)
Definition main (stdin : list string)
  : list Output * Outcome * list string * list string :=
  let '(out, outcome, unread, analysed) :=
    main_loop stdin 0 (store empty_heap 0 init_log) in
  (Print banner :: Print usage :: out, outcome, unread, analysed).

(** The exception that ends the analysis of [expr] on a proper log, if one
    does. *)
Definition raised (expr : string) : option string :=
  match analyze_expression expr 0 (store empty_heap 0 init_log) with
  | (Raises exn, _, _) => Some exn
  | (Returns _, _, _) => None
  end.

End Raising.

End Raising.

(** A run of [n] digits 1. *)
Definition ones (n : nat) : string := string_of_list_ascii (repeat "1"%char n).

(** Within the limit on the digits of [int]. *)
Definition within_limit (max_str_digits : nat) (s : string) : Prop :=
  max_str_digits = O \/ (String.length s <= max_str_digits)%nat.

(** ** Vocabulary of the further properties *)

(** The rule id under which an expression is flagged, if it is. *)
Definition rule_of (sp : option API) (expr : string) : option string :=
  match first_detection (PEDAGOGICAL_GRAPH_NODES sp) expr with
  | Some (rule_id, _, _) => Some rule_id
  | None => None
  end.

(** [analyze_expression] on the expressions of a session in turn, with the
    one log: the hints returned and the log at the end. *)
Fixpoint session (sp : option API) (exprs : list string)
  (log : InteractionLog) : list string * InteractionLog :=
  match exprs with
  | [] => ([], log)
  | expr :: exprs' =>
      let (hint, log') := analyze_expression sp expr log in
      let (hints, log'') := session sp exprs' log' in
      (hint :: hints, log'')
  end.



(** No space and no letter A-Z. *)
Definition is_normal (s : string) : bool :=
  forallb (fun c => negb (is_space c) && negb (is_upper c)) (chars s).

(** The empty text, or a text whose first character is outside the class. *)
Definition stops (p : ascii -> bool) (s : string) : Prop :=
  match s with
  | EmptyString => True
  | String c _ => p c = false
  end.

(** The eight texts of the specific power-rule pattern. *)
Definition power_specific_texts : list string :=
  ["d/dx(x^2)=x"; "d/dx(x^2=x"; "d/dx(x2)=x"; "d/dx(x2=x";
   "d/dxx^2)=x"; "d/dxx^2=x"; "d/dxx2)=x"; "d/dxx2=x"].

(** The lines [main] reads before it stops: those before the first line that
    quits. *)
Fixpoint lines_before_quit (stdin : list string) : list string :=
  match stdin with
  | [] => []
  | line :: stdin' =>
      if quits (strip line) then [] else line :: lines_before_quit stdin'
  end.

(** Whether some line of standard input quits. *)
Definition has_quit (stdin : list string) : bool :=
  existsb (fun line => quits (strip line)) stdin.

(** What the loop writes for one analysed line. *)
Definition exchange (hint : string) : list Output :=
  [Prompt prompt; Print (hint_prefix ++ hint)].


(** What the symbolic fallback must see to flag an expression: both sides
    parse and expand, the expanded sides differ, their expanded difference
    has at least two free symbols and is a polynomial, and one of its terms
    has the coefficient 2 and at least two generators. *)
Definition cross_term_found (api : API) (left_raw right_raw : string) : Prop :=
  exists left right diff symbols terms term coeff vars,
    bindE (sympify api left_raw) (expand api) = Some left
    /\ bindE (sympify api right_raw) (expand api) = Some right
    /\ neb api left right = true
    /\ bindE (sub api left right) (expand api) = Some diff
    /\ free_symbols api diff = Some symbols /\ len_ge symbols 2 = true
    /\ is_polynomial api diff = Some true
    /\ as_ordered_terms api diff = Some terms /\ In term terms
    /\ as_coeff_mul_0 api term = Some coeff /\ eq_int api coeff 2 = true
    /\ is_polynomial api term = Some true
    /\ as_poly_gens api term = Some vars /\ len_ge vars 2 = true.

(** * Properties *)

(** ** [normalize] *)

Lemma prefix_empty (s : string) : prefix "" s = true.
Proof. now destruct s. Qed.

Lemma replace_space_chars (s : string) :
  chars (replace " " "" s) = filter (fun c => negb (is_space c)) (chars s).
Proof.
  unfold replace.
  induction s as [|c s IH]; [reflexivity|].
  cbn [replace_from prefix String.length Nat.sub].
  unfold chars in *. cbn [list_ascii_of_string filter]. unfold is_space at 1.
  destruct (ascii_dec " " c) as [<-|Hne].
  - rewrite prefix_empty. cbn. exact IH.
  - destruct (Ascii.eqb_spec c " ") as [->|_]; [contradiction Hne; reflexivity|].
    cbn. now rewrite IH.
Qed.

Lemma lower_chars (s : string) : chars (lower s) = map lower_char (chars s).
Proof.
  unfold chars. induction s as [|c s IH]; cbn; [reflexivity | now rewrite IH].
Qed.

Lemma normalize_chars (s : string) :
  chars (normalize s)
  = map lower_char (filter (fun c => negb (is_space c)) (chars s)).
Proof. unfold normalize. now rewrite lower_chars, replace_space_chars. Qed.

Lemma chars_inj (s t : string) : chars s = chars t -> s = t.
Proof.
  unfold chars. intro H.
  rewrite <- (string_of_list_ascii_of_string s), <- (string_of_list_ascii_of_string t).
  now rewrite H.
Qed.

Lemma lower_char_not_upper (c : ascii) : is_upper (lower_char c) = false.
Proof. destruct c as [[] [] [] [] [] [] [] []]; reflexivity. Qed.

Lemma lower_char_idem (c : ascii) : lower_char (lower_char c) = lower_char c.
Proof. destruct c as [[] [] [] [] [] [] [] []]; reflexivity. Qed.

Lemma lower_char_space (c : ascii) : is_space (lower_char c) = is_space c.
Proof. destruct c as [[] [] [] [] [] [] [] []]; reflexivity. Qed.


Lemma filter_map_lower (l : list ascii) :
  filter (fun c => negb (is_space c)) (map lower_char l)
  = map lower_char (filter (fun c => negb (is_space c)) l).
Proof.
  induction l as [|c l IH]; [reflexivity|].
  cbn [map filter]. rewrite lower_char_space, IH.
  now destruct (is_space c).
Qed.

Lemma filter_idem {A : Type} (f : A -> bool) (l : list A) :
  filter f (filter f l) = filter f l.
Proof.
  induction l as [|a l IH]; [reflexivity|].
  cbn [filter]. destruct (f a) eqn:E; [|exact IH].
  cbn [filter]. now rewrite E, IH.
Qed.




(** C9: [normalize] is idempotent. *)
Theorem C9_normalize_idempotent (s : string) :
  normalize (normalize s) = normalize s.
Proof.
  apply chars_inj.
  rewrite (normalize_chars (normalize s)), (normalize_chars s).
  rewrite filter_map_lower, filter_idem, map_map.
  apply map_ext. exact lower_char_idem.
Qed.

(** ** [InteractionLog] *)

(** C2: [record] is the transition of the specification's state machine (to
    [active(r, n+1)] from [active(r, n)], to [active(r, 1)] from any other
    state) and returns the resulting streak; on two consecutive calls with
    the same rule id the second streak is the first plus one. *)
Theorem C2_record_transitions (r : string) (log : InteractionLog) :
  (fst (record r log), state_of (snd (record r log)))
  = spec_record r (state_of log)
  /\ state_of (snd (record r log)) = Active r (fst (record r log))
  /\ fst (record r (snd (record r log))) = fst (record r log) + 1.
Proof.
  destruct log as [[l|] n]; unfold record, state_of, spec_record; cbn.
  - rewrite (String.eqb_sym l r).
    destruct (String.eqb_spec r l) as [->|Hne]; cbn.
    + rewrite String.eqb_refl. cbn. auto.
    + rewrite String.eqb_refl. cbn. auto.
  - rewrite String.eqb_refl. cbn. auto.
Qed.

(** C3: the invariant holds initially, [record] preserves it for every rule
    id, and [reset] establishes it from any log. *)
Theorem C3_invariant :
  log_inv init_log
  /\ (forall r log, log_inv log -> log_inv (snd (record r log)))
  /\ (forall log, log_inv (reset log)).
Proof.
  split; [reflexivity|]. split; [|reflexivity].
  intros r [[l|] n]; unfold log_inv, record; cbn.
  - destruct (String.eqb r l); cbn; lia.
  - lia.
Qed.

Lemma C3_invariant_witness :
  log_inv (mkLog (Some "freshman_dream") 1)
  /\ log_inv (snd (record "freshman_dream" (mkLog (Some "freshman_dream") 1))).
Proof.
  assert (H : log_inv (mkLog (Some "freshman_dream") 1)) by (cbn; lia).
  split; [exact H|].
  apply (proj1 (proj2 C3_invariant)). exact H.
Defined.

(** ** The matcher against the patterns' meaning *)

Lemma append_assoc (s1 s2 s3 : string) : (s1 ++ s2) ++ s3 = s1 ++ (s2 ++ s3).
Proof. induction s1 as [|c s1 IH]; cbn; [reflexivity | now rewrite IH]. Qed.

Lemma append_nil_r (s : string) : s ++ "" = s.
Proof. induction s as [|c s IH]; cbn; [reflexivity | now rewrite IH]. Qed.

Lemma length_append (s1 s2 : string) :
  String.length (s1 ++ s2) = (String.length s1 + String.length s2)%nat.
Proof. induction s1 as [|c s1 IH]; cbn; [reflexivity | now rewrite IH]. Qed.

Lemma substring_consumed (s1 s2 : string) :
  substring 0 (String.length (s1 ++ s2) - String.length s2) (s1 ++ s2) = s1.
Proof.
  rewrite length_append, Nat.add_sub.
  induction s1 as [|c s1 IH]; cbn.
  - now destruct s2.
  - now rewrite IH.
Qed.

Lemma plus_class_sound p s gs k res :
  plus_class p s gs k = Some res ->
  exists c s1 s2,
    s = String c (s1 ++ s2) /\ p c = true /\ forallb p (chars s1) = true
    /\ k s2 gs = Some res.
Proof.
  induction s as [|c s IH]; cbn; [discriminate|].
  destruct (p c) eqn:Hc; [|discriminate].
  destruct (plus_class p s gs k) as [res'|] eqn:Hrec.
  - intros [= <-]. destruct (IH eq_refl) as (c' & s1 & s2 & -> & Hc' & Hs1 & Hk).
    exists c, (String c' s1), s2. repeat split; try assumption.
    unfold chars in *. cbn. now rewrite Hc', Hs1.
  - intro Hk. exists c, "", s. now repeat split.
Qed.

(** Whatever the matcher accepts, the pattern matches: the text read is
    matched by the pattern, with the groups the matcher hands on. *)
Lemma run_sound r : forall s gs k res,
  run r s gs k = Some res ->
  exists s1 s2 caps,
    s = s1 ++ s2 /\ matches r s1 caps /\ k s2 (gs ++ caps)%list = Some res.
Proof.
  induction r as [|c|p|r1 IH1 r2 IH2|r1 IH1|p|r1 IH1]; intros s gs k res; cbn.
  - intro H. exists "", s, []. rewrite app_nil_r. repeat split; [constructor | exact H].
  - destruct s as [|c' s]; [discriminate|].
    destruct (Ascii.eqb_spec c c') as [<-|]; [|discriminate].
    intro H. exists (String c ""), s, []. rewrite app_nil_r.
    repeat split; [constructor | exact H].
  - destruct s as [|c' s]; [discriminate|].
    destruct (p c') eqn:Hp; [|discriminate].
    intro H. exists (String c' ""), s, []. rewrite app_nil_r.
    repeat split; [now constructor | exact H].
  - intro H. apply IH1 in H. destruct H as (s1 & s2 & caps1 & -> & M1 & H).
    apply IH2 in H. destruct H as (s3 & s4 & caps2 & -> & M2 & H).
    exists (s1 ++ s3), s4, (caps1 ++ caps2)%list.
    rewrite append_assoc, app_assoc. repeat split; [now constructor | exact H].
  - destruct (run r1 s gs k) as [res'|] eqn:H1.
    + intros [= <-]. apply IH1 in H1.
      destruct H1 as (s1 & s2 & caps & -> & M & H).
      exists s1, s2, caps. repeat split; [now constructor | exact H].
    + intro H. exists "", s, []. rewrite app_nil_r.
      repeat split; [constructor | exact H].
  - intro H. apply plus_class_sound in H.
    destruct H as (c & s1 & s2 & -> & Hc & Hs1 & H).
    exists (String c s1), s2, []. rewrite app_nil_r.
    repeat split; [now constructor | exact H].
  - intro H. apply IH1 in H. destruct H as (s1 & s2 & caps & -> & M & H).
    rewrite substring_consumed in H.
    exists s1, s2, (caps ++ [s1])%list. rewrite app_assoc.
    repeat split; [now constructor | exact H].
Qed.

Lemma fullmatch_sound r s gs : fullmatch r s = Some gs -> matches r s gs.
Proof.
  unfold fullmatch. intro H. apply run_sound in H.
  destruct H as (s1 & s2 & caps & -> & M & H).
  destruct s2; [|discriminate]. injection H as <-.
  now rewrite append_nil_r.
Qed.

Lemma plus_class_cons p c s gs k :
  plus_class p (String c s) gs k
  = if p c then
      match plus_class p s gs k with
      | Some r => Some r
      | None => k s gs
      end
    else None.
Proof. reflexivity. Qed.

Lemma plus_class_complete p s1 : forall c s2 gs k,
  p c = true -> forallb p (chars s1) = true ->
  k s2 gs <> None ->
  plus_class p (String c (s1 ++ s2)) gs k <> None.
Proof.
  induction s1 as [|c' s1 IH]; intros c s2 gs k Hc Hs1 Hk;
    rewrite plus_class_cons, Hc.
  - cbn. now destruct (plus_class p s2 gs k).
  - unfold chars in Hs1. cbn in Hs1. apply andb_true_iff in Hs1.
    destruct Hs1 as [Hc' Hs1].
    specialize (IH c' s2 gs k Hc' Hs1 Hk).
    change (String c' s1 ++ s2) with (String c' (s1 ++ s2)).
    now destruct (plus_class p (String c' (s1 ++ s2)) gs k).
Qed.

(** Whatever the pattern matches, the matcher accepts, provided the rest of
    the text is accepted afterwards. *)
Lemma run_complete r s1 caps :
  matches r s1 caps ->
  forall s2 gs k,
    k s2 (gs ++ caps)%list <> None -> run r (s1 ++ s2) gs k <> None.
Proof.
  induction 1 as [|c|p c Hc|r1 r2 s1 s3 gs1 gs2 _ IH1 _ IH2|r|r s gs' _ IH
                 |p c s Hc Hs|r s gs' _ IH]; intros s2 gs k Hk; cbn.
  - now rewrite app_nil_r in Hk.
  - rewrite Ascii.eqb_refl. now rewrite app_nil_r in Hk.
  - rewrite Hc. now rewrite app_nil_r in Hk.
  - rewrite append_assoc. apply IH1. apply IH2. now rewrite <- app_assoc.
  - rewrite app_nil_r in Hk. now destruct (run r s2 gs k).
  - specialize (IH s2 gs k Hk). now destruct (run r (s ++ s2) gs k).
  - rewrite app_nil_r in Hk. now apply plus_class_complete.
  - apply IH. rewrite substring_consumed. now rewrite <- app_assoc.
Qed.

(** [fullmatch] accepts exactly the texts the pattern matches. *)
Lemma fullmatch_iff_matches r s :
  fullmatch r s <> None <-> exists gs, matches r s gs.
Proof.
  split.
  - destruct (fullmatch r s) as [gs|] eqn:H; [|congruence].
    intros _. exists gs. now apply fullmatch_sound.
  - intros [gs M]. unfold fullmatch.
    rewrite <- (append_nil_r s). now apply (run_complete r s gs M).
Qed.

(** ** The shapes the two general patterns accept *)

Lemma matches_opt_lit c s gs :
  matches (Opt (Lit c)) s gs -> opt_char c s /\ gs = [].
Proof.
  intro H. inversion H as [| | | |r|r s' gs' H'| |]; subst.
  - split; [now left | reflexivity].
  - inversion H'; subst. split; [now right | reflexivity].
Qed.

Ltac invert_matches :=
  repeat match goal with
    | H : matches (Cat _ _) _ _ |- _ => inversion H; subst; clear H
    | H : matches (Lit _) _ _ |- _ => inversion H; subst; clear H
    | H : matches Eps _ _ |- _ => inversion H; subst; clear H
    | H : matches (Group _) _ _ |- _ => inversion H; subst; clear H
    | H : matches (PlusClass _) _ _ |- _ => inversion H; subst; clear H
    | H : matches (Opt (Lit _)) _ _ |- _ =>
        apply matches_opt_lit in H; destruct H as [? ->]
    end.

(** Text accepted by the general power-rule pattern reads
    d/dx(x^N)=x^M, with N and M runs of digits and both parentheses and both
    carets optional. *)
Lemma power_general_shape s g1 g2 :
  fullmatch re_power_general s = Some [g1; g2] -> power_shape s g1 g2.
Proof.
  unfold power_shape. intro H. apply fullmatch_sound in H.
  unfold re_power_general in H. cbn [seq fold_right lit] in H.
  invert_matches.
  match goal with H : _ = [g1; g2] |- _ => cbn in H; injection H as <- <- end.
  eexists _, _, _, _. split.
  - cbn. rewrite append_nil_r. reflexivity.
  - repeat split; try assumption; try discriminate; unfold chars in *; cbn;
      repeat match goal with H : _ = true |- _ => rewrite H; clear H end;
      reflexivity.
Qed.

(** Text accepted by the general binomial pattern reads (U+V)^2=P^2+Q^2 with
    U, V, P and Q runs of lower-case letters. *)
Lemma freshman_general_shape s u v p q :
  fullmatch re_freshman_general s = Some [u; v; p; q] ->
  binomial_shape s u v p q.
Proof.
  unfold binomial_shape. intro H. apply fullmatch_sound in H.
  unfold re_freshman_general in H. cbn [seq fold_right lit] in H.
  invert_matches.
  match goal with H : _ = [u; v; p; q] |- _ =>
    cbn in H; injection H as <- <- <- <- end.
  split; [reflexivity|].
  repeat split; try discriminate; unfold chars in *; cbn;
    repeat match goal with H : _ = true |- _ => rewrite H; clear H end;
    reflexivity.
Qed.

(** ** The detectors *)

Lemma sorted_pair (a b : string) :
  sorted [a; b] = if String.ltb a b then [a; b] else [b; a].
Proof. reflexivity. Qed.

(** Two sorted pairs are equal only if the pairs agree up to order. *)
Lemma sorted_pairs_equal (a b c d : string) :
  list_eqb (sorted [a; b]) (sorted [c; d]) = true ->
  (a = c /\ b = d) \/ (a = d /\ b = c).
Proof.
  rewrite !sorted_pair.
  destruct (String.ltb a b), (String.ltb c d); cbn [list_eqb];
    rewrite andb_true_r, andb_true_iff, !String.eqb_eq; intuition.
Qed.

Lemma hint_power_rule_cases (expr : string) (res : DetectionResult) :
  hint_power_rule expr = Some res ->
  res = power_specific_result \/ res = power_general_result.
Proof.
  unfold hint_power_rule.
  destruct (fullmatch re_power_specific (normalize expr)).
  - intros [= <-]. now left.
  - destruct (fullmatch re_power_general (normalize expr))
      as [[|g1 [|g2 [|g3 gs]]]|]; try discriminate.
    destruct (_ && _); [|discriminate]. intros [= <-]. now right.
Qed.

Lemma scan_terms_cases (api : API) (terms : list (Expr api))
  (res : DetectionResult) :
  scan_terms api terms = Some (Some res) -> res = freshman_symbolic_result.
Proof.
  induction terms as [|term terms IH]; cbn [scan_terms]; [discriminate|].
  unfold bindE.
  destruct (as_coeff_mul_0 api term) as [coeff|]; [|discriminate].
  destruct (is_polynomial api term) as [is_poly|]; [|discriminate].
  destruct is_poly; [destruct (as_poly_gens api term) as [vars|]|];
    try discriminate;
    (destruct (_ && _); [now intros [= <-] | exact IH]).
Qed.

Lemma freshman_try_cases (api : API) (l r : string) (res : DetectionResult) :
  freshman_try api l r = Some (Some res) -> res = freshman_symbolic_result.
Proof.
  unfold freshman_try, bindE.
  destruct (sympify api l) as [l0|]; [|discriminate].
  destruct (expand api l0) as [left|]; [|discriminate].
  destruct (sympify api r) as [r0|]; [|discriminate].
  destruct (expand api r0) as [right|]; [|discriminate].
  destruct (neb api left right); [|discriminate].
  destruct (sub api left right) as [d0|]; [|discriminate].
  destruct (expand api d0) as [diff|]; [|discriminate].
  destruct (free_symbols api diff) as [symbols|]; [|discriminate].
  destruct (len_ge symbols 2); [|discriminate].
  destruct (is_polynomial api diff) as [[|]|]; try discriminate.
  destruct (as_ordered_terms api diff) as [terms|]; [|discriminate].
  apply scan_terms_cases.
Qed.

Lemma freshman_fallback_cases (sp : option API) (expr : string)
  (res : DetectionResult) :
  freshman_fallback sp expr = Some res -> res = freshman_symbolic_result.
Proof.
  unfold freshman_fallback.
  destruct sp as [api|]; [|discriminate].
  destruct (contains "=" expr); [|discriminate].
  destruct (split1 "=" expr) as [|l [|r [|x xs]]]; try discriminate.
  destruct (freshman_try api l r) as [[res'|]|] eqn:E; try discriminate.
  intros [= <-]. now apply freshman_try_cases in E.
Qed.

Lemma hint_freshman_dream_cases (sp : option API) (expr : string)
  (res : DetectionResult) :
  hint_freshman_dream sp expr = Some res ->
  res = freshman_specific_result \/ res = freshman_general_result
  \/ res = freshman_symbolic_result.
Proof.
  unfold hint_freshman_dream.
  destruct (fullmatch re_freshman_specific (normalize expr)).
  - intros [= <-]. now left.
  - destruct (fullmatch re_freshman_general (normalize expr))
      as [[|a [|b [|c [|d [|x xs]]]]]|];
      try (intro H; apply freshman_fallback_cases in H; now right; right).
    destruct (list_eqb _ _).
    + intros [= <-]. right. now left.
    + intro H. apply freshman_fallback_cases in H. now right; right.
Qed.

(** C6: the general power-rule pattern fires only on normalized text of the
    shape d/dx(x^N)=x^M with N - 1 = M and N <> 1, and "d/dx(x^1) = x^0" is
    not flagged. *)
Theorem C6_power_general_guard :
  (forall expr,
      hint_power_rule expr = Some power_general_result ->
      exists N M,
        power_shape (normalize expr) N M
        /\ int N - 1 = int M /\ int N <> 1)
  /\ hint_power_rule "d/dx(x^1) = x^0" = None.
Proof.
  split; [|reflexivity].
  intro expr. unfold hint_power_rule.
  destruct (fullmatch re_power_specific (normalize expr)).
  - discriminate.
  - destruct (fullmatch re_power_general (normalize expr))
      as [[|g1 [|g2 [|g3 gs]]]|] eqn:Hm; try discriminate.
    destruct (int g1 - 1 =? int g2) eqn:E1; [|discriminate].
    destruct (int g1 =? 1) eqn:E2; [discriminate|].
    intros _. exists g1, g2.
    split; [now apply power_general_shape | split; lia].
Qed.

Lemma C6_power_general_guard_witness :
  exists N M,
    power_shape (normalize "d/dx(x^3) = x^2") N M
    /\ int N - 1 = int M /\ int N <> 1.
Proof.
  apply (proj1 C6_power_general_guard "d/dx(x^3) = x^2"). reflexivity.
Defined.

(** C10: in the specific power-rule pattern the opening parenthesis, the
    caret and the closing parenthesis are optional independently of each
    other, so "d/dx(x^2=x", "d/dxx^2)=x" and "d/dxx2=x" are flagged with
    rule id power_rule_missing_coefficient and the hints of the specific
    pattern. *)
Theorem C10_power_specific_optional_parts :
  (forall open caret close : bool,
      hint_power_rule
        ("d/dx" ++ (if open then "(" else "") ++ "x"
         ++ (if caret then "^" else "") ++ "2"
         ++ (if close then ")" else "") ++ "=x")
      = Some power_specific_result)
  /\ hint_power_rule "d/dx(x^2=x" = Some power_specific_result
  /\ hint_power_rule "d/dxx^2)=x" = Some power_specific_result
  /\ hint_power_rule "d/dxx2=x" = Some power_specific_result
  /\ fst (fst power_specific_result) = "power_rule_missing_coefficient".
Proof.
  split; [intros [] [] []; reflexivity|].
  repeat split; reflexivity.
Qed.

(** C5, as stated, fails when sympy is available: the general pattern does
    not fire on "(a+c)^2 = a^2+b^2", but the symbolic fallback that follows
    finds the cross term 2ac in the difference of the two sides and flags
    the input as freshman_dream. *)
Lemma C5_counterexample :
  hint_freshman_dream (Some PolySympy.api) "(a+c)^2 = a^2+b^2"
  = Some freshman_symbolic_result.
Proof. vm_compute. reflexivity. Qed.

(** C5, amended: the generalized binomial pattern fires only when the
    unordered pair of symbols on the left equals the one on the right; on
    "(a+c)^2 = a^2+b^2" neither text pattern fires, so [hint_freshman_dream]
    returns what the symbolic fallback returns: no detection when sympy is
    unavailable, and otherwise never the result of a text pattern. *)
Theorem C5_freshman_general_guard :
  (forall sp expr,
      hint_freshman_dream sp expr = Some freshman_general_result ->
      exists u v p q,
        binomial_shape (normalize expr) u v p q
        /\ ((u = p /\ v = q) \/ (u = q /\ v = p)))
  /\ (forall sp,
         hint_freshman_dream sp "(a+c)^2 = a^2+b^2"
         = freshman_fallback sp "(a+c)^2 = a^2+b^2")
  /\ hint_freshman_dream None "(a+c)^2 = a^2+b^2" = None
  /\ (forall sp,
         hint_freshman_dream sp "(a+c)^2 = a^2+b^2"
         <> Some freshman_specific_result
         /\ hint_freshman_dream sp "(a+c)^2 = a^2+b^2"
            <> Some freshman_general_result).
Proof.
  assert (Hfb : forall sp,
             hint_freshman_dream sp "(a+c)^2 = a^2+b^2"
             = freshman_fallback sp "(a+c)^2 = a^2+b^2") by reflexivity.
  split; [|split; [exact Hfb | split; [reflexivity|]]].
  - intros sp expr. unfold hint_freshman_dream.
    destruct (fullmatch re_freshman_specific (normalize expr)).
    + discriminate.
    + destruct (fullmatch re_freshman_general (normalize expr))
        as [[|u [|v [|p [|q [|x xs]]]]]|] eqn:Hm;
        try (intro H; apply freshman_fallback_cases in H; discriminate H).
      destruct (list_eqb _ _) eqn:E.
      * intros _. exists u, v, p, q.
        split; [now apply freshman_general_shape|].
        now apply sorted_pairs_equal.
      * intro H. apply freshman_fallback_cases in H. discriminate H.
  - intro sp. rewrite Hfb.
    split; intro H; apply freshman_fallback_cases in H; discriminate H.
Qed.

Lemma C5_freshman_general_guard_witness :
  exists u v p q,
    binomial_shape (normalize "(b+a)^2 = a^2+b^2") u v p q
    /\ ((u = p /\ v = q) \/ (u = q /\ v = p)).
Proof.
  apply (proj1 C5_freshman_general_guard None "(b+a)^2 = a^2+b^2").
  reflexivity.
Defined.

(** ** [analyze_expression] *)

Lemma detector_loop_found nodes expr otherwise rule_id base_hint escalated_hint :
  first_detection nodes expr = Some (rule_id, base_hint, escalated_hint) ->
  detector_loop nodes expr otherwise
  = CallRecord rule_id
      (fun streak => Ret (if streak >=? 2 then escalated_hint else base_hint)).
Proof.
  induction nodes as [|detector nodes IH]; cbn; [discriminate|].
  destruct (detector expr) as [[[r b] e]|]; [|exact IH].
  now intros [= -> -> ->].
Qed.

Lemma detector_loop_none nodes expr otherwise :
  first_detection nodes expr = None ->
  detector_loop nodes expr otherwise = otherwise.
Proof.
  induction nodes as [|detector nodes IH]; cbn; [reflexivity|].
  destruct (detector expr) as [[[r b] e]|]; [discriminate | exact IH].
Qed.

(** Every detection carries two different hint texts. *)
Lemma detection_hints_differ sp expr rule_id base_hint escalated_hint :
  first_detection (PEDAGOGICAL_GRAPH_NODES sp) expr
  = Some (rule_id, base_hint, escalated_hint) ->
  base_hint <> escalated_hint.
Proof.
  cbn.
  destruct (hint_power_rule expr) as [res|] eqn:Hp.
  - intros [= ->]. apply hint_power_rule_cases in Hp.
    destruct Hp as [[= _ -> ->]|[= _ -> ->]]; discriminate.
  - destruct (hint_freshman_dream sp expr) as [res|] eqn:Hf; [|discriminate].
    intros [= ->]. apply hint_freshman_dream_cases in Hf.
    destruct Hf as [[= _ -> ->]|[[= _ -> ->]|[= _ -> ->]]]; discriminate.
Qed.


(** C1: when a detector matches, [analyze_expression] returns the escalated
    hint if and only if the streak returned by [log.record] for this call is
    at least 2, and the base hint otherwise. *)
Theorem C1_escalation_threshold sp expr log rule_id base_hint escalated_hint :
  first_detection (PEDAGOGICAL_GRAPH_NODES sp) expr
  = Some (rule_id, base_hint, escalated_hint) ->
  calls (analyze_body sp expr) log = [Record_ rule_id]
  /\ snd (analyze_expression sp expr log) = snd (record rule_id log)
  /\ (fst (analyze_expression sp expr log) = escalated_hint
      <-> fst (record rule_id log) >= 2)
  /\ (fst (analyze_expression sp expr log) = base_hint
      <-> fst (record rule_id log) < 2).
Proof.
  intro Hdet.
  pose proof (detection_hints_differ _ _ _ _ _ Hdet) as Hne.
  unfold analyze_expression, analyze_body.
  rewrite (detector_loop_found _ _ _ _ _ _ Hdet).
  cbn [exec calls].
  destruct (record rule_id log) as [n log'] eqn:Hrec. cbn [exec calls fst snd].
  split; [reflexivity|]. split; [reflexivity|].
  destruct (Z.geb_spec n 2) as [Hge|Hlt]; split; split; intro H;
    try reflexivity; try lia; congruence.
Qed.

Lemma C1_escalation_threshold_witness :
  let log := mkLog (Some "power_rule_missing_coefficient") 1 in
  fst (analyze_expression None "d/dx(x^2)=x" log)
  = snd power_specific_result
  <-> fst (record "power_rule_missing_coefficient" log) >= 2.
Proof.
  exact (proj1 (proj2 (proj2
    (C1_escalation_threshold None "d/dx(x^2)=x"
       (mkLog (Some "power_rule_missing_coefficient") 1)
       "power_rule_missing_coefficient"
       (snd (fst power_specific_result)) (snd power_specific_result)
       eq_refl)))).
Defined.







(** * Further properties *)

(** ** [normalize], continued *)

Lemma chars_app (s t : string) : chars (s ++ t) = (chars s ++ chars t)%list.
Proof.
  unfold chars. induction s as [|c s IH]; cbn; [reflexivity | now rewrite IH].
Qed.

Lemma normalize_idem (s : string) : normalize (normalize s) = normalize s.
Proof.
  apply chars_inj.
  rewrite (normalize_chars (normalize s)), (normalize_chars s).
  rewrite filter_map_lower, filter_idem, map_map.
  apply map_ext. exact lower_char_idem.
Qed.

Lemma normalize_is_normal (s : string) : is_normal (normalize s) = true.
Proof.
  unfold is_normal. rewrite normalize_chars.
  induction (chars s) as [|c l IH]; [reflexivity|].
  cbn [filter]. destruct (is_space c) eqn:E; cbn [negb]; [exact IH|].
  cbn [map forallb]. now rewrite lower_char_space, E, lower_char_not_upper, IH.
Qed.

Lemma lower_char_fixed (c : ascii) : is_upper c = false -> lower_char c = c.
Proof. unfold lower_char. now intros ->. Qed.

Lemma normalize_app (s t : string) :
  normalize (s ++ t) = normalize s ++ normalize t.
Proof.
  apply chars_inj. rewrite chars_app, !normalize_chars, chars_app.
  now rewrite filter_app, map_app.
Qed.

(** X1: on ASCII text [normalize] distributes over concatenation:
    normalizing a text in pieces and joining the results is normalizing the
    whole. *)
Theorem normalize_append (s t : string) :
  is_ascii s = true -> is_ascii t = true ->
  normalize (s ++ t) = normalize s ++ normalize t.
Proof.
  intros _ _. apply chars_inj.
  now rewrite chars_app, !normalize_chars, chars_app, filter_app, map_app.
Qed.

Lemma normalize_append_witness :
  normalize ("d/dx (X^2)" ++ " = x") = normalize "d/dx (X^2)" ++ normalize " = x".
Proof. apply normalize_append; reflexivity. Defined.

(** X2: the ASCII texts [normalize] leaves unchanged are exactly those
    without a space and without a letter A-Z. *)
Theorem normalize_fixed_points (s : string) :
  is_ascii s = true -> (normalize s = s <-> is_normal s = true).
Proof.
  intros _. split.
  - intros <-. apply normalize_is_normal.
  - intro H. apply chars_inj. rewrite normalize_chars.
    unfold is_normal in H.
    induction (chars s) as [|c l IH]; [reflexivity|].
    cbn [forallb] in H. apply andb_true_iff in H. destruct H as [Hc Hl].
    apply andb_true_iff in Hc. destruct Hc as [Hsp Hup].
    apply negb_true_iff in Hsp, Hup.
    cbn [filter]. rewrite Hsp. cbn [negb map].
    now rewrite (lower_char_fixed c Hup), (IH Hl).
Qed.

Lemma normalize_fixed_points_witness :
  normalize "d/dx(x^2)=x" = "d/dx(x^2)=x" <-> is_normal "d/dx(x^2)=x" = true.
Proof. apply normalize_fixed_points. reflexivity. Defined.

(** X3: on ASCII text a space costs one character and nothing else does:
    the length of the normalized text is the length of the text less its
    spaces. *)
Theorem normalize_length (s : string) :
  is_ascii s = true ->
  (String.length (normalize s) + List.length (filter is_space (chars s))
   = String.length s)%nat.
Proof.
  intros _.
  assert (L : forall t, String.length t = List.length (chars t)).
  { unfold chars. induction t as [|c t IH]; cbn; [reflexivity | now rewrite IH]. }
  rewrite !L, normalize_chars, length_map.
  induction (chars s) as [|c l IH]; [reflexivity|].
  cbn [filter]. destruct (is_space c); cbn [negb List.length]; lia.
Qed.

Lemma normalize_length_witness :
  (String.length (normalize "d/dx (x^2) = x")
   + List.length (filter is_space (chars "d/dx (x^2) = x"))
   = String.length "d/dx (x^2) = x")%nat.
Proof. apply normalize_length. reflexivity. Defined.

(** ** The matcher on a text of known shape *)

Lemma plus_class_stops p s gs k : stops p s -> plus_class p s gs k = None.
Proof. destruct s as [|c s]; cbn; [reflexivity | now intros ->]. Qed.

(** On a run followed by a text that stops it, [p+] takes the whole run
    whenever the rest of the pattern accepts what follows. *)
Lemma plus_class_run p N : forall rest gs k res,
  run_of p N -> stops p rest -> k rest gs = Some res ->
  plus_class p (N ++ rest) gs k = Some res.
Proof.
  induction N as [|c N IH]; intros rest gs k res [Hne Hall] Hstop Hk;
    [contradiction Hne; reflexivity|].
  unfold chars in Hall. cbn in Hall. apply andb_true_iff in Hall.
  destruct Hall as [Hc HN].
  change (String c N ++ rest) with (String c (N ++ rest)).
  rewrite plus_class_cons, Hc.
  destruct N as [|c' N].
  - cbn [append]. now rewrite (plus_class_stops p rest gs k Hstop).
  - rewrite (IH rest gs k res); [reflexivity | | assumption..].
    split; [discriminate | exact HN].
Qed.

Lemma run_group_run p N rest gs k res :
  run_of p N -> stops p rest -> k rest (gs ++ [N])%list = Some res ->
  run (Group (PlusClass p)) (N ++ rest) gs k = Some res.
Proof.
  intros HN Hstop Hk. cbn [run].
  apply plus_class_run; [assumption..|].
  now rewrite substring_consumed.
Qed.

Lemma run_opt_char c o rest gs k res :
  opt_char c o -> stops (Ascii.eqb c) rest -> k rest gs = Some res ->
  run (Opt (Lit c)) (o ++ rest) gs k = Some res.
Proof.
  intros [->| ->] Hstop Hk; cbn.
  - destruct rest as [|c' rest]; [exact Hk|].
    cbn in Hstop. now rewrite Hstop.
  - now rewrite Ascii.eqb_refl, Hk.
Qed.

Lemma run_cat r1 r2 s gs k :
  run (Cat r1 r2) s gs k = run r1 s gs (fun s' gs' => run r2 s' gs' k).
Proof. reflexivity. Qed.

Lemma run_lit c s gs k : run (Lit c) (String c s) gs k = k s gs.
Proof. cbn. now rewrite Ascii.eqb_refl. Qed.

Lemma stops_run (p q : ascii -> bool) N rest :
  run_of q N -> (forall c, q c = true -> p c = false) -> stops p (N ++ rest).
Proof.
  intros [Hne Hall] Hpq. destruct N as [|c N]; [contradiction Hne; reflexivity|].
  unfold chars in Hall. cbn in Hall. apply andb_true_iff in Hall.
  cbn. now apply Hpq.
Qed.

Lemma digit_not_caret c : is_digit c = true -> Ascii.eqb "^" c = false.
Proof. destruct c as [[] [] [] [] [] [] [] []]; try discriminate; reflexivity. Qed.

Lemma run_eps s gs k : run Eps s gs k = k s gs.
Proof. reflexivity. Qed.

(** Reads the literal part of a pattern against the literal part of a
    text. *)
Ltac read_literals :=
  repeat (cbn [append];
          first [rewrite run_cat | rewrite run_lit | rewrite run_eps
                | progress cbv beta]).

(** On a text of the shape d/dx(x^N)=x^M the general pattern matches and
    captures N and M. *)
Lemma power_general_fullmatch s N M :
  power_shape s N M -> fullmatch re_power_general s = Some [N; M].
Proof.
  intros (o1 & o2 & o3 & o4 & -> & H1 & H2 & H3 & H4 & HN & HM).
  unfold fullmatch, re_power_general. cbn [seq fold_right lit].
  read_literals.
  apply run_opt_char; [assumption | reflexivity|]. read_literals.
  apply run_opt_char;
    [assumption | now apply (stops_run _ is_digit), digit_not_caret|].
  read_literals.
  apply run_group_run; [assumption | destruct H3 as [->| ->]; reflexivity|].
  read_literals.
  apply run_opt_char; [assumption | reflexivity|]. read_literals.
  rewrite <- (append_nil_r M).
  apply run_opt_char;
    [assumption | now apply (stops_run _ is_digit), digit_not_caret|].
  read_literals.
  apply run_group_run; [assumption | exact I|].
  now rewrite append_nil_r.
Qed.

(** On a text of the shape (U+V)^2=P^2+Q^2 the general binomial pattern
    matches and captures U, V, P and Q. *)
Lemma freshman_general_fullmatch s u v p q :
  binomial_shape s u v p q ->
  fullmatch re_freshman_general s = Some [u; v; p; q].
Proof.
  intros (-> & Hu & Hv & Hp & Hq).
  unfold fullmatch, re_freshman_general. cbn [seq fold_right lit].
  read_literals.
  apply run_group_run; [assumption | reflexivity|]. read_literals.
  apply run_group_run; [assumption | reflexivity|]. read_literals.
  apply run_group_run; [assumption | reflexivity|]. read_literals.
  apply run_group_run; [assumption | reflexivity|]. read_literals.
  reflexivity.
Qed.

Lemma matches_lit t : forall s gs, matches (lit t) s gs -> s = t.
Proof.
  induction t as [|c t IH]; intros s gs H; cbn in H.
  - now inversion H.
  - inversion H as [| | |r1 r2 s1 s2 gs1 gs2 H1 H2| | | |]; subst.
    inversion H1; subst. cbn. f_equal. now apply (IH s2 gs2).
Qed.

Lemma freshman_specific_text s :
  fullmatch re_freshman_specific s <> None <-> s = "(a+b)^2=a^2+b^2".
Proof.
  split.
  - intro H. apply fullmatch_iff_matches in H. destruct H as [gs H].
    now apply matches_lit in H.
  - intros ->. discriminate.
Qed.

Lemma power_specific_text s :
  fullmatch re_power_specific s <> None <-> In s power_specific_texts.
Proof.
  split.
  - intro H. apply fullmatch_iff_matches in H. destruct H as [gs H].
    unfold re_power_specific in H. cbn [seq fold_right lit] in H.
    invert_matches.
    repeat match goal with H : opt_char _ _ |- _ => destruct H as [->| ->] end;
      cbn; tauto.
  - cbn. intros H.
    repeat (destruct H as [<-|H]; [discriminate|]). contradiction.
Qed.

Lemma power_specific_not_general s :
  In s power_specific_texts -> fullmatch re_power_general s = None.
Proof.
  cbn. intros H.
  repeat (destruct H as [<-|H]; [reflexivity|]). contradiction.
Qed.

Lemma digit_val_nonneg c : is_digit c = true -> 0 <= digit_val c <= 9.
Proof.
  destruct c as [[] [] [] [] [] [] [] []]; try discriminate; intros _;
    unfold digit_val; cbn; lia.
Qed.

Lemma int_from_nonneg s : forall acc,
  0 <= acc -> forallb is_digit (chars s) = true -> acc <= int_from acc s.
Proof.
  induction s as [|c s IH]; intros acc Hacc Hs; cbn [int_from]; [lia|].
  unfold chars in Hs. cbn in Hs. apply andb_true_iff in Hs.
  destruct Hs as [Hc Hs]. pose proof (digit_val_nonneg c Hc) as Hd.
  assert (Hacc' : 0 <= 10 * acc + digit_val c) by lia.
  pose proof (IH (10 * acc + digit_val c) Hacc' Hs). lia.
Qed.

Lemma int_nonneg s : run_of is_digit s -> 0 <= int s.
Proof. intros [_ H]. now apply int_from_nonneg. Qed.

Lemma ltb_irrefl_pair (a b : string) :
  String.ltb a b = true -> String.ltb b a = false.
Proof.
  unfold String.ltb. rewrite (String.compare_antisym b a).
  now destruct (String.compare a b).
Qed.

Lemma ltb_neither (a b : string) :
  String.ltb a b = false -> String.ltb b a = false -> a = b.
Proof.
  unfold String.ltb. rewrite (String.compare_antisym b a).
  destruct (String.compare a b) eqn:E; try discriminate.
  intros _ _. now apply String.compare_eq_iff.
Qed.

Lemma list_eqb_refl l : list_eqb l l = true.
Proof.
  induction l as [|x l IH]; [reflexivity|].
  cbn. now rewrite String.eqb_refl, IH.
Qed.

(** The check on the sorted pairs accepts the pairs that agree up to
    order. *)
Lemma sorted_pairs_accept (a b c d : string) :
  (a = c /\ b = d) \/ (a = d /\ b = c) ->
  list_eqb (sorted [a; b]) (sorted [c; d]) = true.
Proof.
  intros [[<- <-]|[<- <-]]; [apply list_eqb_refl|].
  rewrite !sorted_pair.
  destruct (String.ltb a b) eqn:E1, (String.ltb b a) eqn:E2;
    try apply list_eqb_refl.
  - now rewrite (ltb_irrefl_pair a b E1) in E2.
  - rewrite (ltb_neither a b E1 E2). apply list_eqb_refl.
Qed.

(** ** The detectors, characterised *)

(** X4: [hint_power_rule] returns the result of the specific pattern exactly
    on the expressions whose normalized text is one of the eight spellings
    of d/dx(x^2)=x with each parenthesis and the caret present or absent. *)
Theorem power_specific_characterised (expr : string) :
  hint_power_rule expr = Some power_specific_result
  <-> In (normalize expr) power_specific_texts.
Proof.
  rewrite <- power_specific_text. unfold hint_power_rule.
  destruct (fullmatch re_power_specific (normalize expr)).
  - split; intros _; [discriminate | reflexivity].
  - split; [|intro H; now contradiction H].
    destruct (fullmatch re_power_general (normalize expr))
      as [[|g1 [|g2 [|g3 gs]]]|]; try discriminate.
    destruct (_ && _); discriminate.
Qed.

Lemma power_general_fires_iff (expr : string) :
  hint_power_rule expr = Some power_general_result
  <-> exists N M,
        power_shape (normalize expr) N M /\ int N - 1 = int M /\ int N <> 1.
Proof.
  unfold hint_power_rule. split.
  - destruct (fullmatch re_power_specific (normalize expr)); [discriminate|].
    destruct (fullmatch re_power_general (normalize expr))
      as [[|g1 [|g2 [|g3 gs]]]|] eqn:Hm; try discriminate.
    destruct (int g1 - 1 =? int g2) eqn:E1; [|discriminate].
    destruct (int g1 =? 1) eqn:E2; [discriminate|].
    intros _. exists g1, g2.
    split; [now apply power_general_shape | split; lia].
  - intros (N & M & Hshape & HNM & HN1).
    pose proof (power_general_fullmatch _ _ _ Hshape) as Hg.
    destruct (fullmatch re_power_specific (normalize expr)) eqn:Hs.
    + assert (Hin : In (normalize expr) power_specific_texts)
        by (apply power_specific_text; congruence).
      apply power_specific_not_general in Hin. congruence.
    + rewrite Hg.
      replace (int N - 1 =? int M) with true by (symmetry; lia).
      replace (int N =? 1) with false by (symmetry; lia).
      reflexivity.
Qed.

(** X6: no text is matched by both power-rule patterns, so the order in
    which [hint_power_rule] tries them never decides its result. *)
Theorem power_patterns_disjoint (s : string) :
  fullmatch re_power_specific s = None \/ fullmatch re_power_general s = None.
Proof.
  destruct (fullmatch re_power_specific s) eqn:Hs; [right | now left].
  apply power_specific_not_general, power_specific_text. congruence.
Qed.

(** X7: whenever the general power-rule pattern fires, the exponent on the
    left is at least 2 and the one on the right is exactly one less: the
    exponents 0 and 1 are never flagged by it. *)
Theorem power_general_exponents (expr : string) :
  hint_power_rule expr = Some power_general_result ->
  exists N M,
    power_shape (normalize expr) N M /\ 2 <= int N /\ int M = int N - 1.
Proof.
  unfold hint_power_rule.
  destruct (fullmatch re_power_specific (normalize expr)); [discriminate|].
  destruct (fullmatch re_power_general (normalize expr))
    as [[|N [|M [|g3 gs]]]|] eqn:Hm; try discriminate.
  destruct (int N - 1 =? int M) eqn:E1; [|discriminate].
  destruct (int N =? 1) eqn:E2; [discriminate|].
  intros _. exists N, M.
  pose proof (power_general_shape _ _ _ Hm) as Hshape.
  split; [exact Hshape|].
  destruct Hshape as (_ & _ & _ & _ & _ & _ & _ & _ & _ & HN & HM).
  pose proof (int_nonneg N HN). pose proof (int_nonneg M HM). lia.
Qed.

Lemma power_general_exponents_witness :
  exists N M,
    power_shape (normalize "d/dx(x^3)=x^2") N M
    /\ 2 <= int N /\ int M = int N - 1.
Proof. apply power_general_exponents. reflexivity. Defined.

(** X8: [hint_freshman_dream] returns the result of the literal pattern
    exactly on the expressions whose normalized text is (a+b)^2=a^2+b^2, and
    the result of the generalized pattern exactly on the other expressions
    whose normalized text reads (U+V)^2=P^2+Q^2 with the pair U, V equal to
    the pair P, Q up to order; sympy has no part in either. *)
Theorem freshman_text_patterns_characterised (sp : option API) (expr : string) :
  (hint_freshman_dream sp expr = Some freshman_specific_result
   <-> normalize expr = "(a+b)^2=a^2+b^2")
  /\ (hint_freshman_dream sp expr = Some freshman_general_result
      <-> normalize expr <> "(a+b)^2=a^2+b^2"
          /\ exists u v p q,
               binomial_shape (normalize expr) u v p q
               /\ ((u = p /\ v = q) \/ (u = q /\ v = p))).
Proof.
  rewrite <- freshman_specific_text. unfold hint_freshman_dream.
  destruct (fullmatch re_freshman_specific (normalize expr)) eqn:Hs.
  - split; split; try discriminate; try reflexivity.
    intros [H _]. now contradiction H.
  - split; split.
    + destruct (fullmatch re_freshman_general (normalize expr))
        as [[|u [|v [|p [|q [|x xs]]]]]|];
        try (intro H; apply freshman_fallback_cases in H; discriminate H).
      destruct (list_eqb _ _); [discriminate|].
      intro H; apply freshman_fallback_cases in H; discriminate H.
    + intro H. now contradiction H.
    + intro H. split; [congruence|]. revert H.
      destruct (fullmatch re_freshman_general (normalize expr))
        as [[|u [|v [|p [|q [|x xs]]]]]|] eqn:Hm;
        try (intro H; apply freshman_fallback_cases in H; discriminate H).
      destruct (list_eqb _ _) eqn:E.
      * intros _. exists u, v, p, q.
        split; [now apply freshman_general_shape | now apply sorted_pairs_equal].
      * intro H. apply freshman_fallback_cases in H. discriminate H.
    + intros (_ & u & v & p & q & Hshape & Hpairs).
      rewrite (freshman_general_fullmatch _ _ _ _ _ Hshape).
      now rewrite (sorted_pairs_accept _ _ _ _ Hpairs).
Qed.

Lemma freshman_text_patterns_characterised_witness :
  hint_freshman_dream None "(Rate + tax)^2 = TAX^2 + rate^2"
  = Some freshman_general_result.
Proof.
  apply (proj2 (freshman_text_patterns_characterised None _)).
  split; [discriminate|].
  exists "rate", "tax", "tax", "rate".
  split; [|right; split; reflexivity].
  repeat split; try discriminate; reflexivity.
Defined.

(** X9: the detectors use fixed rule ids: [hint_power_rule] flags only under
    power_rule_missing_coefficient and [hint_freshman_dream] only under
    freshman_dream, so the two detectors never feed the same streak. *)
Theorem detector_rule_ids (sp : option API) (expr : string)
  (res : DetectionResult) :
  (hint_power_rule expr = Some res ->
   fst (fst res) = "power_rule_missing_coefficient")
  /\ (hint_freshman_dream sp expr = Some res ->
      fst (fst res) = "freshman_dream").
Proof.
  split; intro H.
  - apply hint_power_rule_cases in H. now destruct H as [-> | ->].
  - apply hint_freshman_dream_cases in H. now destruct H as [-> | [-> | ->]].
Qed.

Lemma detector_rule_ids_witness :
  fst (fst power_specific_result) = "power_rule_missing_coefficient".
Proof.
  apply (proj1 (detector_rule_ids None "d/dx(x^2)=x" power_specific_result)).
  reflexivity.
Defined.

(** ** Spaces, case and the equality sign *)

Lemma normalize_lower (s : string) : normalize (lower s) = normalize s.
Proof.
  apply chars_inj.
  rewrite !normalize_chars, lower_chars, filter_map_lower, map_map.
  apply map_ext. exact lower_char_idem.
Qed.

Lemma normalize_space (s1 s2 : string) :
  normalize (s1 ++ " " ++ s2) = normalize (s1 ++ s2).
Proof. now rewrite !normalize_app. Qed.

Lemma analyze_by_normalized (e1 e2 : string) (log : InteractionLog) :
  normalize e1 = normalize e2 ->
  analyze_expression None e1 log = analyze_expression None e2 log.
Proof.
  intro H.
  unfold analyze_expression, analyze_body, PEDAGOGICAL_GRAPH_NODES,
    detector_loop, after_reset, hint_freshman_dream, hint_power_rule,
    freshman_fallback.
  now rewrite H.
Qed.

(** X10: without sympy the tutor reads an expression through [normalize]
    only: a space inserted anywhere, or a change of letter case, changes
    neither the hint nor the log; [hint_power_rule] has this property with
    or without sympy. *)
Theorem spaces_and_case_ignored (s1 s2 : string) (log : InteractionLog) :
  analyze_expression None (s1 ++ " " ++ s2) log
  = analyze_expression None (s1 ++ s2) log
  /\ analyze_expression None (lower s1) log = analyze_expression None s1 log
  /\ analyze_expression None (normalize s1) log
     = analyze_expression None s1 log
  /\ hint_power_rule (s1 ++ " " ++ s2) = hint_power_rule (s1 ++ s2)
  /\ hint_power_rule (lower s1) = hint_power_rule s1.
Proof.
  repeat split.
  - apply analyze_by_normalized, normalize_space.
  - apply analyze_by_normalized, normalize_lower.
  - apply analyze_by_normalized, normalize_idem.
  - unfold hint_power_rule. now rewrite normalize_space.
  - unfold hint_power_rule. now rewrite normalize_lower.
Qed.

Lemma contains_char (c : ascii) (s : string) :
  contains (String c "") s = existsb (Ascii.eqb c) (chars s).
Proof.
  unfold contains, chars. induction s as [|b s IH]; [reflexivity|].
  cbn [index prefix list_ascii_of_string existsb].
  destruct (ascii_dec c b) as [<-|Hne].
  - now rewrite prefix_empty, Ascii.eqb_refl.
  - destruct (Ascii.eqb_spec c b) as [|_]; [contradiction|].
    cbn [orb]. rewrite <- IH. now destruct (index 0 (String c "") s).
Qed.

Lemma contains_eq_normalize (s : string) :
  contains "=" (normalize s) = contains "=" s.
Proof.
  rewrite !contains_char, normalize_chars.
  induction (chars s) as [|c l IH]; [reflexivity|].
  cbn [filter existsb]. destruct (is_space c) eqn:E; cbn [negb].
  - rewrite IH. clear -E. now destruct c as [[] [] [] [] [] [] [] []].
  - cbn [map existsb]. rewrite IH. f_equal. clear.
    now destruct c as [[] [] [] [] [] [] [] []].
Qed.

Lemma contains_app_r (c : ascii) (s t : string) :
  contains (String c "") t = true -> contains (String c "") (s ++ t) = true.
Proof.
  rewrite !contains_char, chars_app, existsb_app. intros ->. apply orb_true_r.
Qed.

(** Every text one of the four patterns accepts holds an equality sign. *)
Lemma patterns_need_equality (s : string) :
  fullmatch re_power_specific s <> None
  \/ fullmatch re_power_general s <> None
  \/ fullmatch re_freshman_specific s <> None
  \/ fullmatch re_freshman_general s <> None ->
  contains "=" s = true.
Proof.
  intros [H|[H|[H|H]]].
  - apply power_specific_text in H. cbn in H.
    repeat (destruct H as [<-|H]; [reflexivity|]). contradiction.
  - destruct (fullmatch re_power_general s) as [gs|] eqn:E; [|congruence].
    apply fullmatch_sound in E.
    unfold re_power_general in E. cbn [seq fold_right lit] in E.
    invert_matches. rewrite !contains_char, !chars_app.
    rewrite !existsb_app. cbn. now rewrite !orb_true_r.
  - apply freshman_specific_text in H. now subst.
  - destruct (fullmatch re_freshman_general s) as [gs|] eqn:E; [|congruence].
    apply fullmatch_sound in E.
    unfold re_freshman_general in E. cbn [seq fold_right lit] in E.
    invert_matches. rewrite !contains_char, !chars_app.
    rewrite !existsb_app. cbn. now rewrite !orb_true_r.
Qed.

(** X11: an expression without an equality sign is never flagged: whatever
    sympy does, [analyze_expression] answers with the neutral hint and
    leaves the log idle. *)
Theorem no_equality_sign_is_neutral (sp : option API) (expr : string)
  (log : InteractionLog) :
  contains "=" expr = false ->
  analyze_expression sp expr log = (neutral_hint, reset log)
  /\ hint_power_rule expr = None /\ hint_freshman_dream sp expr = None.
Proof.
  intro Hno.
  assert (Hpat : forall r, fullmatch r (normalize expr) <> None ->
                 r = re_power_specific \/ r = re_power_general
                 \/ r = re_freshman_specific \/ r = re_freshman_general ->
                 False).
  { intros r Hr Hwhich.
    assert (contains "=" (normalize expr) = true).
    { apply patterns_need_equality.
      destruct Hwhich as [->|[->|[->| ->]]]; tauto. }
    rewrite contains_eq_normalize in H. congruence. }
  assert (Hp : hint_power_rule expr = None).
  { unfold hint_power_rule.
    destruct (fullmatch re_power_specific (normalize expr)) eqn:E1;
      [exfalso; apply (Hpat re_power_specific); [congruence | tauto]|].
    destruct (fullmatch re_power_general (normalize expr)) eqn:E2;
      [exfalso; apply (Hpat re_power_general); [congruence | tauto]|].
    reflexivity. }
  assert (Hf : hint_freshman_dream sp expr = None).
  { unfold hint_freshman_dream.
    destruct (fullmatch re_freshman_specific (normalize expr)) eqn:E1;
      [exfalso; apply (Hpat re_freshman_specific); [congruence | tauto]|].
    destruct (fullmatch re_freshman_general (normalize expr)) eqn:E2;
      [exfalso; apply (Hpat re_freshman_general); [congruence | tauto]|].
    unfold freshman_fallback. rewrite Hno. now destruct sp. }
  split; [|now split].
  unfold analyze_expression, analyze_body.
  rewrite detector_loop_none by (cbn; now rewrite Hp, Hf).
  cbn [exec]. f_equal. unfold after_reset. rewrite Hno. now destruct sp.
Qed.

Lemma no_equality_sign_is_neutral_witness :
  analyze_expression (Some PolySympy.api) "(a+b)^2" init_log
  = (neutral_hint, reset init_log).
Proof.
  apply (no_equality_sign_is_neutral (Some PolySympy.api) "(a+b)^2" init_log).
  reflexivity.
Defined.

(** ** Sessions *)










(** ** The path without a detection *)



(** ** [str.strip] *)

Lemma rstrip_cons (c : ascii) (s : string) :
  rstrip (String c s)
  = match rstrip s with
    | EmptyString =>
        if is_whitespace c then EmptyString else String c EmptyString
    | r => String c r
    end.
Proof. reflexivity. Qed.

Lemma rstrip_idem (s : string) : rstrip (rstrip s) = rstrip s.
Proof.
  induction s as [|c s IH]; [reflexivity|].
  rewrite rstrip_cons. destruct (rstrip s) as [|c' r] eqn:E.
  - destruct (is_whitespace c) eqn:W; [reflexivity|]. cbn. now rewrite W.
  - rewrite rstrip_cons, IH. reflexivity.
Qed.

Lemma lstrip_stops (s : string) : stops is_whitespace (lstrip s).
Proof.
  induction s as [|c s IH]; [exact I|].
  cbn [lstrip]. destruct (is_whitespace c) eqn:W; [exact IH | exact W].
Qed.

Lemma lstrip_fixed (s : string) : stops is_whitespace s -> lstrip s = s.
Proof. destruct s as [|c s]; cbn; [reflexivity | now intros ->]. Qed.

Lemma rstrip_keeps_start (s : string) :
  stops is_whitespace s -> stops is_whitespace (rstrip s).
Proof.
  destruct s as [|c s]; [exact (fun H => H)|].
  rewrite rstrip_cons. cbn [stops]. intro W.
  destruct (rstrip s); [now rewrite W | exact W].
Qed.

Lemma strip_idem (s : string) : strip (strip s) = strip s.
Proof.
  unfold strip.
  rewrite (lstrip_fixed (rstrip (lstrip s)))
    by apply rstrip_keeps_start, lstrip_stops.
  apply rstrip_idem.
Qed.

(** What [rstrip] returns does not end in whitespace. *)
Lemma rstrip_end (s : string) :
  forall c t, rstrip s = t ++ String c "" -> is_whitespace c = false.
Proof.
  induction s as [|b s IH]; intros c t; [now destruct t|].
  rewrite rstrip_cons.
  destruct (rstrip s) as [|b' r] eqn:E.
  - destruct (is_whitespace b) eqn:W; [now destruct t|].
    destruct t as [|a t]; cbn; [now intros [= <-]|].
    intros [= _ H]. now destruct t.
  - destruct t as [|a t]; cbn; [discriminate|].
    intros [= _ H]. now apply (IH c t).
Qed.


(** ** The two sides handed to the checker *)

Lemma substring_all (s : string) : substring 0 (String.length s) s = s.
Proof. induction s as [|c s IH]; cbn; [reflexivity | now rewrite IH]. Qed.

Lemma index_char_cut (c : ascii) (s : string) : forall i,
  index 0 (String c "") s = Some i ->
  s = substring 0 i s ++ String c ""
      ++ substring (i + 1) (String.length s - (i + 1)) s
  /\ contains (String c "") (substring 0 i s) = false.
Proof.
  induction s as [|b s IH]; intro i; [discriminate|].
  cbn [index prefix].
  destruct (ascii_dec c b) as [<-|Hne].
  - rewrite prefix_empty. intros [= <-]. cbn. rewrite Nat.sub_0_r.
    now rewrite substring_all.
  - destruct (index 0 (String c "") s) as [n|] eqn:E; [|discriminate].
    intros [= <-]. destruct (IH n eq_refl) as [Hcut Hno].
    cbn [substring Nat.add String.length Nat.sub append].
    split; [f_equal; exact Hcut|].
    rewrite contains_char in *. unfold chars in *. cbn [list_ascii_of_string existsb].
    rewrite Hno. destruct (Ascii.eqb_spec c b); [contradiction | reflexivity].
Qed.

(** X18: the sides handed to sympy are the text before the first equality
    sign and the whole text after it: put back around an equality sign they
    give the expression, and the left side holds no equality sign (the right
    side may).  Without an equality sign there is no cut. *)
Theorem split_at_first_equality (expr : string) :
  (contains "=" expr = true ->
   exists left_raw right_raw,
     split1 "=" expr = [left_raw; right_raw]
     /\ expr = left_raw ++ "=" ++ right_raw
     /\ contains "=" left_raw = false)
  /\ (contains "=" expr = false -> split1 "=" expr = [expr]).
Proof.
  unfold contains at 1 3, split1.
  destruct (index 0 "=" expr) as [i|] eqn:E; split; try discriminate;
    try reflexivity.
  intros _. destruct (index_char_cut _ _ _ E) as [Hcut Hno].
  eexists _, _. split; [reflexivity|]. split; [exact Hcut | exact Hno].
Qed.

Lemma split_at_first_equality_witness :
  exists left_raw right_raw,
    split1 "=" "a = b = c" = [left_raw; right_raw]
    /\ "a = b = c" = left_raw ++ "=" ++ right_raw
    /\ contains "=" left_raw = false.
Proof. apply (proj1 (split_at_first_equality "a = b = c")). reflexivity. Defined.

(** ** The symbolic fallback *)

Lemma scan_terms_fires (api : API) (terms : list (Expr api))
  (res : DetectionResult) :
  scan_terms api terms = Some (Some res) ->
  exists term coeff vars,
    In term terms
    /\ as_coeff_mul_0 api term = Some coeff /\ eq_int api coeff 2 = true
    /\ is_polynomial api term = Some true
    /\ as_poly_gens api term = Some vars /\ len_ge vars 2 = true.
Proof.
  induction terms as [|term terms IH]; cbn [scan_terms]; [discriminate|].
  unfold bindE.
  destruct (as_coeff_mul_0 api term) as [coeff|] eqn:Hc; [|discriminate].
  destruct (is_polynomial api term) as [[|]|] eqn:Hp; [| |discriminate].
  - destruct (as_poly_gens api term) as [vars|] eqn:Hg; [|discriminate].
    destruct (eq_int api coeff 2 && len_ge vars 2) eqn:E.
    + intros _. apply andb_true_iff in E. destruct E as [E1 E2].
      exists term, coeff, vars. cbn [In]. tauto.
    + intro H. destruct (IH H) as (t & c & v & Hin & Hrest).
      exists t, c, v. cbn [In]. tauto.
  - destruct (eq_int api coeff 2 && len_ge [] 2) eqn:E.
    + apply andb_true_iff in E. destruct E as [_ E]. discriminate E.
    + intro H. destruct (IH H) as (t & c & v & Hin & Hrest).
      exists t, c, v. cbn [In]. tauto.
Qed.

(** X19: [hint_freshman_dream] returns the result of the symbolic fallback
    only when sympy is available, the raw expression holds an equality sign,
    no call on sympy raised on the way, the expanded sides differ, their
    expanded difference is a polynomial with at least two free symbols, and
    one of its terms has the coefficient 2 and at least two generators. *)
Theorem symbolic_fallback_conditions (sp : option API) (expr : string) :
  hint_freshman_dream sp expr = Some freshman_symbolic_result ->
  exists api left_raw right_raw,
    sp = Some api
    /\ split1 "=" expr = [left_raw; right_raw]
    /\ cross_term_found api left_raw right_raw.
Proof.
  unfold hint_freshman_dream.
  destruct (fullmatch re_freshman_specific (normalize expr)); [discriminate|].
  assert (Hfb : freshman_fallback sp expr = Some freshman_symbolic_result ->
                exists api left_raw right_raw,
                  sp = Some api
                  /\ split1 "=" expr = [left_raw; right_raw]
                  /\ cross_term_found api left_raw right_raw).
  { unfold freshman_fallback.
    destruct sp as [api|]; [|discriminate].
    destruct (contains "=" expr); [|discriminate].
    destruct (split1 "=" expr) as [|l [|r [|x xs]]]; try discriminate.
    destruct (freshman_try api l r) as [[res|]|] eqn:E; try discriminate.
    intros _. exists api, l, r. split; [reflexivity|]. split; [reflexivity|].
    unfold freshman_try in E. unfold cross_term_found.
    destruct (sympify api l) as [l0|]; [|discriminate].
    cbn [bindE] in E |- *.
    destruct (expand api l0) as [left|]; [|discriminate].
    destruct (sympify api r) as [r0|]; [|discriminate].
    cbn [bindE] in E |- *.
    destruct (expand api r0) as [right|]; [|discriminate].
    cbn [bindE] in E.
    destruct (neb api left right) eqn:Hne; [|discriminate].
    destruct (sub api left right) as [d0|] eqn:Hsub; [|discriminate].
    cbn [bindE] in E.
    destruct (expand api d0) as [diff|] eqn:Hd; [|discriminate].
    cbn [bindE] in E.
    destruct (free_symbols api diff) as [symbols|] eqn:Hsym; [|discriminate].
    cbn [bindE] in E.
    destruct (len_ge symbols 2) eqn:Hlen; [|discriminate].
    destruct (is_polynomial api diff) as [[|]|] eqn:Hpoly; try discriminate.
    cbn [bindE] in E.
    destruct (as_ordered_terms api diff) as [terms|] eqn:Ht; [|discriminate].
    cbn [bindE] in E.
    destruct (scan_terms_fires _ _ _ E)
      as (term & coeff & vars & Hin & Hc & H2 & Hp & Hg & Hv).
    exists left, right, diff, symbols, terms, term, coeff, vars.
    rewrite Hsub. cbn [bindE].
    repeat split; try assumption; reflexivity. }
  destruct (fullmatch re_freshman_general (normalize expr))
    as [[|u [|v [|p [|q [|x xs]]]]]|]; try exact Hfb.
  destruct (list_eqb _ _); [discriminate | exact Hfb].
Qed.

Lemma symbolic_fallback_conditions_witness :
  exists api left_raw right_raw,
    Some PolySympy.api = Some api
    /\ split1 "=" "(a+c)^2 = a^2+b^2" = [left_raw; right_raw]
    /\ cross_term_found api left_raw right_raw.
Proof.
  apply (symbolic_fallback_conditions (Some PolySympy.api) "(a+c)^2 = a^2+b^2").
  vm_compute. reflexivity.
Defined.

(** X20: sympy matters only where no text pattern matches: on an expression
    that a text pattern flags, [analyze_expression] gives the same hint and
    the same log with any sympy as without one. *)
Theorem text_detection_ignores_sympy (sp : option API) (expr : string)
  (log : InteractionLog) :
  rule_of None expr <> None ->
  analyze_expression sp expr log = analyze_expression None expr log.
Proof.
  unfold rule_of, analyze_expression, analyze_body. cbn [PEDAGOGICAL_GRAPH_NODES
    first_detection detector_loop].
  destruct (hint_power_rule expr) as [[[r b] e]|]; [reflexivity|].
  assert (Hf : hint_freshman_dream None expr <> None ->
               hint_freshman_dream sp expr = hint_freshman_dream None expr).
  { unfold hint_freshman_dream.
    destruct (fullmatch re_freshman_specific (normalize expr)); [reflexivity|].
    destruct (fullmatch re_freshman_general (normalize expr))
      as [[|u [|v [|p [|q [|x xs]]]]]|];
      try (intro H; now contradiction H).
    destruct (list_eqb _ _); [reflexivity | intro H; now contradiction H]. }
  destruct (hint_freshman_dream None expr) as [[[r b] e]|] eqn:E.
  - intros _. rewrite Hf by discriminate. reflexivity.
  - intro H. now contradiction H.
Qed.

Lemma text_detection_ignores_sympy_witness :
  analyze_expression (Some PolySympy.api) "(x+y)^2 = x^2+y^2" init_log
  = analyze_expression None "(x+y)^2 = x^2+y^2" init_log.
Proof.
  apply (text_detection_ignores_sympy (Some PolySympy.api)
           "(x+y)^2 = x^2+y^2" init_log).
  discriminate.
Defined.

(** * The code with its raises and its store *)

Lemma raising_int_within (m : nat) (s : string) :
  within_limit m s -> Raising.int m s = Returns (int s).
Proof.
  unfold Raising.int, within_limit. intros [-> | H]; [reflexivity|].
  apply Nat.ltb_ge in H. rewrite H. now rewrite andb_false_r.
Qed.

Lemma raising_int_cases (m : nat) (s : string) :
  (Raising.int m s = Returns (int s) /\ within_limit m s)
  \/ (Raising.int m s = Raises "ValueError" /\ ~ within_limit m s).
Proof.
  unfold Raising.int, within_limit.
  destruct (0 <? m)%nat eqn:E0; [|left; split; [reflexivity|]].
  - destruct (m <? String.length s)%nat eqn:E1; cbn [andb].
    + right. split; [reflexivity|].
      apply Nat.ltb_lt in E0, E1. lia.
    + left. split; [reflexivity|]. apply Nat.ltb_ge in E1. now right.
  - apply Nat.ltb_ge in E0. left. lia.
Qed.

(** Where the raising detector returns, it returns what the detector
    without raises returns. *)
Lemma raising_power_returns (m : nat) (expr : string) r :
  Raising.hint_power_rule m expr = Returns r -> hint_power_rule expr = r.
Proof.
  unfold Raising.hint_power_rule, hint_power_rule.
  destruct (fullmatch re_power_specific (normalize expr)); [now intros [= <-]|].
  destruct (fullmatch re_power_general (normalize expr))
    as [[|g1 [|g2 [|g3 gs]]]|]; try (now intros [= <-]).
  destruct (raising_int_cases m g1) as [[-> _]|[-> _]]; [|discriminate].
  destruct (raising_int_cases m g2) as [[-> _]|[-> _]]; [|discriminate].
  destruct (_ && _); now intros [= <-].
Qed.

Lemma raising_freshman_returns (sp : option API) (esc : Escapes)
  (expr : string) r :
  Raising.hint_freshman_dream sp esc expr = Returns r ->
  hint_freshman_dream sp expr = r.
Proof.
  unfold Raising.hint_freshman_dream, hint_freshman_dream, freshman_fallback.
  destruct (fullmatch re_freshman_specific (normalize expr));
    [now intros [= <-]|].
  destruct (match fullmatch re_freshman_general (normalize expr) with
            | Some [left_a; left_b; right_a; right_b] => _
            | _ => None
            end); [now intros [= <-]|].
  destruct sp as [api|]; [|now intros [= <-]].
  destruct (contains "=" expr); [|now intros [= <-]].
  destruct (split1 "=" expr) as [|l [|r' [|x xs]]]; try (now intros [= <-]).
  destruct (from_fallback esc l r'); [discriminate|].
  destruct (freshman_try api l r') as [[res|]|]; now intros [= <-].
Qed.

Lemma raising_after_reset (sp : option API) (esc : Escapes) (expr : string)
  hint :
  Raising.after_reset sp esc expr = Returns hint -> after_reset sp expr = hint.
Proof.
  unfold Raising.after_reset, after_reset.
  destruct sp as [api|]; [|now intros [= <-]].
  destruct (contains "=" expr); [|now intros [= <-]].
  destruct (split1 "=" expr) as [|l [|r' [|x xs]]]; try (now intros [= <-]).
  destruct (from_check esc l r'); [discriminate|].
  destruct (equality_try api l r') as [[h|]|]; now intros [= <-].
Qed.


(** What the code with raises does on a log of the store, in terms of the
    code without: where it returns, the hint, the log and the calls are
    those; where it raises, either a detector raised, before any call on the
    log, or the equality check did, after [reset]. *)
Lemma analyze_in_store (m : nat) (sp : option API) (esc : Escapes)
  (expr : string) (l : nat) (h : Heap) (log : InteractionLog) :
  h l = Some log ->
  match Raising.analyze_expression m sp esc expr l h with
  | (Returns hint, h', cs) =>
      hint = fst (analyze_expression sp expr log)
      /\ h' = store h l (snd (analyze_expression sp expr log))
      /\ cs = calls (analyze_body sp expr) log
  | (Raises exn, h', cs) =>
      (h' = h /\ cs = []
       /\ (Raising.hint_power_rule m expr = Raises exn
           \/ Raising.hint_freshman_dream sp esc expr = Raises exn))
      \/ (rule_of sp expr = None
          /\ h' = store h l (reset log) /\ cs = [Reset_]
          /\ Raising.after_reset sp esc expr = Raises exn)
  end.
Proof.
  intro Hl.
  unfold Raising.analyze_expression, Raising.PEDAGOGICAL_GRAPH_NODES,
    analyze_expression, analyze_body, PEDAGOGICAL_GRAPH_NODES, rule_of.
  cbn [Raising.detector_loop detector_loop first_detection].
  unfold Raising.record_at, Raising.reset_at. rewrite Hl.
  destruct (Raising.hint_power_rule m expr) as [[[[r b] e]|]|exn] eqn:Hp;
    [| |left; auto].
  - rewrite (raising_power_returns _ _ _ Hp). cbn [exec calls].
    destruct (record r log) as [n log']. cbn. auto.
  - rewrite (raising_power_returns _ _ _ Hp).
    destruct (Raising.hint_freshman_dream sp esc expr)
      as [[[[r b] e]|]|exn] eqn:Hf; [| |left; auto].
    + rewrite (raising_freshman_returns _ _ _ _ Hf). cbn [exec calls].
      destruct (record r log) as [n log']. cbn. auto.
    + rewrite (raising_freshman_returns _ _ _ _ Hf). cbn [exec calls fst snd].
      destruct (Raising.after_reset sp esc expr) as [hint|exn] eqn:Ha.
      * rewrite (raising_after_reset _ _ _ _ Ha). auto.
      * right. split; [|auto]. cbn.
        now rewrite (raising_power_returns _ _ _ Hp),
          (raising_freshman_returns _ _ _ _ Hf).
Qed.


Lemma store_same (h : Heap) (l : nat) (log : InteractionLog) :
  store h l log l = Some log.
Proof. unfold store. now rewrite Nat.eqb_refl. Qed.





(** X5: on ASCII text, and with CPython's limit on the digits of [int]
    (0 for none), [hint_power_rule] returns the result of the general
    pattern exactly when the normalized text reads d/dx(x^N)=x^M, N and M
    runs of digits within the limit, parentheses and carets optional, with
    N - 1 = M and N <> 1; it raises exactly when the text has that shape and
    N or M is beyond the limit, and then it raises [ValueError]. *)
Theorem power_general_characterised (m : nat) (expr : string) :
  is_ascii expr = true ->
  (Raising.hint_power_rule m expr = Returns (Some power_general_result)
   <-> exists N M,
         power_shape (normalize expr) N M
         /\ within_limit m N /\ within_limit m M
         /\ int N - 1 = int M /\ int N <> 1)
  /\ (Raising.hint_power_rule m expr = Raises "ValueError"
      <-> exists N M,
            power_shape (normalize expr) N M
            /\ ~ (within_limit m N /\ within_limit m M))
  /\ (forall exn,
         Raising.hint_power_rule m expr = Raises exn -> exn = "ValueError").
Proof.
  intros _.
  pose proof (fun N M => power_general_fullmatch (normalize expr) N M) as Huniq.
  unfold Raising.hint_power_rule.
  destruct (fullmatch re_power_specific (normalize expr)) eqn:Hs.
  - assert (Hno : forall N M, power_shape (normalize expr) N M -> False).
    { intros N M Hsh. apply Huniq in Hsh.
      assert (Hin : In (normalize expr) power_specific_texts)
        by (apply power_specific_text; congruence).
      apply power_specific_not_general in Hin. congruence. }
    split; [|split]; [split | split | discriminate];
      try discriminate; intros (N & M & Hsh & _); exfalso; eauto.
  - destruct (fullmatch re_power_general (normalize expr))
      as [[|g1 [|g2 [|g3 gs]]]|] eqn:Hg;
      try (split; [|split]; [split | split | discriminate];
           try discriminate; intros (N & M & Hsh & _);
           apply Huniq in Hsh; discriminate Hsh).
    pose proof (power_general_shape _ _ _ Hg) as Hshape.
    assert (Hsame : forall N M, power_shape (normalize expr) N M ->
                    N = g1 /\ M = g2).
    { intros N M Hsh. apply Huniq in Hsh. now injection Hsh as <- <-. }
    destruct (raising_int_cases m g1) as [[-> W1]|[-> W1]].
    + destruct (raising_int_cases m g2) as [[-> W2]|[-> W2]].
      * destruct ((int g1 - 1 =? int g2) && negb (int g1 =? 1)) eqn:G.
        -- apply andb_true_iff in G. destruct G as [G1 G2].
           apply Z.eqb_eq in G1. apply negb_true_iff, Z.eqb_neq in G2.
           split; [|split]; [split | split | discriminate].
           ++ intros _. now exists g1, g2.
           ++ reflexivity.
           ++ discriminate.
           ++ intros (N & M & Hsh & Hout).
              destruct (Hsame _ _ Hsh) as [-> ->]. tauto.
        -- split; [|split]; [split | split | discriminate];
             try discriminate.
           ++ intros (N & M & Hsh & _ & _ & G1 & G2).
              destruct (Hsame _ _ Hsh) as [-> ->].
              apply andb_false_iff in G. destruct G as [G|G].
              ** apply Z.eqb_neq in G. contradiction.
              ** apply negb_false_iff, Z.eqb_eq in G. contradiction.
           ++ intros (N & M & Hsh & Hout).
              destruct (Hsame _ _ Hsh) as [-> ->]. tauto.
      * split; [|split]; [split | split | now intros exn [= <-]].
        -- discriminate.
        -- intros (N & M & Hsh & _ & W & _).
           destruct (Hsame _ _ Hsh) as [-> ->]. contradiction.
        -- intros _. exists g1, g2. tauto.
        -- reflexivity.
    + split; [|split]; [split | split | now intros exn [= <-]].
      * discriminate.
      * intros (N & M & Hsh & W & _).
        destruct (Hsame _ _ Hsh) as [-> ->]. contradiction.
      * intros _. exists g1, g2. tauto.
      * reflexivity.
Qed.

Lemma power_general_characterised_witness :
  Raising.hint_power_rule 4300 "D/DX (x^10) = x^9"
  = Returns (Some power_general_result).
Proof.
  apply (proj1 (power_general_characterised 4300 "D/DX (x^10) = x^9" eq_refl)).
  exists "10", "9".
  split; [|repeat split; try (right; cbn; lia); discriminate].
  exists "(", "^", ")", "^".
  repeat split; try (now right); try discriminate; reflexivity.
Defined.

(** ** [analyze_expression]: how it raises *)

(** Whether and with what the analysis raises does not depend on the log it
    is given, as long as there is one. *)
Lemma analyze_outcome (m : nat) (sp : option API) (esc : Escapes)
  (expr : string) (l : nat) (h : Heap) (log : InteractionLog) :
  h l = Some log ->
  Raising.raised m sp esc expr
  = match Raising.analyze_expression m sp esc expr l h with
    | (Raises exn, _, _) => Some exn
    | (Returns _, _, _) => None
    end.
Proof.
  intro Hl.
  unfold Raising.raised, Raising.analyze_expression,
    Raising.PEDAGOGICAL_GRAPH_NODES.
  cbn [Raising.detector_loop].
  unfold Raising.record_at, Raising.reset_at.
  rewrite Hl, store_same.
  destruct (Raising.hint_power_rule m expr) as [[[[r b] e]|]|exn];
    [| |reflexivity].
  - now destruct (record r init_log), (record r log).
  - destruct (Raising.hint_freshman_dream sp esc expr)
      as [[[[r b] e]|]|exn]; [| |reflexivity].
    + now destruct (record r init_log), (record r log).
    + now destruct (Raising.after_reset sp esc expr).
Qed.

Lemma analyze_returns (m : nat) (sp : option API) (esc : Escapes)
  (expr : string) (l : nat) (h : Heap) (log : InteractionLog) :
  h l = Some log ->
  Raising.raised m sp esc expr = None ->
  Raising.analyze_expression m sp esc expr l h
  = (Returns (fst (analyze_expression sp expr log)),
     store h l (snd (analyze_expression sp expr log)),
     calls (analyze_body sp expr) log).
Proof.
  intros Hl Hr. rewrite (analyze_outcome _ _ _ _ _ _ _ Hl) in Hr.
  pose proof (analyze_in_store m sp esc expr l h log Hl) as H.
  destruct (Raising.analyze_expression m sp esc expr l h)
    as [[[hint|exn] h'] cs]; [|discriminate].
  now destruct H as (-> & -> & ->).
Qed.

Lemma analyze_raises (m : nat) (sp : option API) (esc : Escapes)
  (expr : string) (l : nat) (h : Heap) (log : InteractionLog) exn :
  h l = Some log ->
  Raising.raised m sp esc expr = Some exn ->
  exists h' cs,
    Raising.analyze_expression m sp esc expr l h = (Raises exn, h', cs).
Proof.
  intros Hl Hr. rewrite (analyze_outcome _ _ _ _ _ _ _ Hl) in Hr.
  destruct (Raising.analyze_expression m sp esc expr l h)
    as [[[hint|exn'] h'] cs]; [discriminate|].
  injection Hr as ->. now exists h', cs.
Qed.

Lemma power_raises_iff (m : nat) (expr : string) (exn : string) :
  Raising.hint_power_rule m expr = Raises exn
  <-> exn = "ValueError"
      /\ exists N M,
           power_shape (normalize expr) N M
           /\ ~ (within_limit m N /\ within_limit m M).
Proof.
  pose proof (fun N M => power_general_fullmatch (normalize expr) N M) as Huniq.
  unfold Raising.hint_power_rule.
  destruct (fullmatch re_power_specific (normalize expr)) eqn:Hs.
  - split; [discriminate|]. intros (_ & N & M & Hsh & _). exfalso.
    apply Huniq in Hsh.
    assert (Hin : In (normalize expr) power_specific_texts)
      by (apply power_specific_text; congruence).
    apply power_specific_not_general in Hin. congruence.
  - destruct (fullmatch re_power_general (normalize expr))
      as [[|g1 [|g2 [|g3 gs]]]|] eqn:Hg;
      try (split; [discriminate|]; intros (_ & N & M & Hsh & _);
           apply Huniq in Hsh; discriminate Hsh).
    pose proof (power_general_shape _ _ _ Hg) as Hshape.
    assert (Hsame : forall N M, power_shape (normalize expr) N M ->
                    N = g1 /\ M = g2).
    { intros N M Hsh. apply Huniq in Hsh. now injection Hsh as <- <-. }
    destruct (raising_int_cases m g1) as [[-> W1]|[-> W1]].
    + destruct (raising_int_cases m g2) as [[-> W2]|[-> W2]].
      * split.
        -- destruct (_ && _); discriminate.
        -- intros (_ & N & M & Hsh & Hout).
           destruct (Hsame _ _ Hsh) as [-> ->]. tauto.
      * split.
        -- intros [= <-]. split; [reflexivity|]. exists g1, g2. tauto.
        -- now intros [-> _].
    + split.
      * intros [= <-]. split; [reflexivity|]. exists g1, g2. tauto.
      * now intros [-> _].
Qed.

(** X21: when no exception escapes from sympy, [analyze_expression] on a
    log raises exactly when [int] does inside [hint_power_rule]: on ASCII
    text, when the normalized text reads d/dx(x^N)=x^M with N or M beyond
    the limit on digits; the exception is [ValueError], no call is made on
    the log and the store is unchanged. *)
Theorem analyze_raises_characterised (m : nat) (sp : option API)
  (expr : string) (l : nat) (h : Heap) (log : InteractionLog) :
  is_ascii expr = true ->
  h l = Some log ->
  ((exists N M,
       power_shape (normalize expr) N M
       /\ ~ (within_limit m N /\ within_limit m M))
   -> Raising.analyze_expression m sp no_escape expr l h
      = (Raises "ValueError", h, []))
  /\ (forall exn h' cs,
         Raising.analyze_expression m sp no_escape expr l h
         = (Raises exn, h', cs) ->
         exn = "ValueError" /\ h' = h /\ cs = []
         /\ exists N M,
              power_shape (normalize expr) N M
              /\ ~ (within_limit m N /\ within_limit m M)).
Proof.
  intros _ Hl.
  pose proof (power_raises_iff m expr) as Hraise.
  assert (Hf : forall exn,
             Raising.hint_freshman_dream sp no_escape expr <> Raises exn).
  { intro exn. unfold Raising.hint_freshman_dream.
    destruct (fullmatch re_freshman_specific (normalize expr)); [discriminate|].
    destruct (match fullmatch re_freshman_general (normalize expr) with
              | Some [left_a; left_b; right_a; right_b] => _
              | _ => None
              end); [discriminate|].
    destruct sp as [api|]; [|discriminate].
    destruct (contains "=" expr); [|discriminate].
    destruct (split1 "=" expr) as [|x [|y [|z zs]]]; try discriminate.
    cbn [no_escape from_fallback].
    destruct (freshman_try api x y) as [[res|]|]; discriminate. }
  assert (Ha : forall exn, Raising.after_reset sp no_escape expr <> Raises exn).
  { intro exn. unfold Raising.after_reset.
    destruct sp as [api|]; [|discriminate].
    destruct (contains "=" expr); [|discriminate].
    destruct (split1 "=" expr) as [|x [|y [|z zs]]]; try discriminate.
    cbn [no_escape from_check].
    destruct (equality_try api x y) as [[res|]|]; discriminate. }
  unfold Raising.analyze_expression, Raising.PEDAGOGICAL_GRAPH_NODES.
  cbn [Raising.detector_loop].
  unfold Raising.record_at, Raising.reset_at. rewrite Hl.
  split.
  - intro Hsh. now rewrite (proj2 (Hraise "ValueError") (conj eq_refl Hsh)).
  - intros exn h' cs.
    destruct (Raising.hint_power_rule m expr) as [[[[r b] e]|]|exn'] eqn:Hp.
    + destruct (record r log). discriminate.
    + destruct (Raising.hint_freshman_dream sp no_escape expr)
        as [[[[r b] e]|]|exn''] eqn:Hfd.
      * destruct (record r log). discriminate.
      * destruct (Raising.after_reset sp no_escape expr) as [hint|exn3];
          [discriminate | exfalso; now apply (Ha exn3)].
      * exfalso. now apply (Hf exn'').
    + intros [= <- <- <-].
      destruct (proj1 (Hraise exn') eq_refl) as [-> Hsh]. now repeat split.
Qed.

Lemma analyze_raises_characterised_witness :
  Raising.analyze_expression 4300 None no_escape
    ("d/dx(x^" ++ ones 4301 ++ ")=x^1") 0 (store empty_heap 0 init_log)
  = (Raises "ValueError", store empty_heap 0 init_log, []).
Proof.
  apply (proj1 (analyze_raises_characterised 4300 None
                  ("d/dx(x^" ++ ones 4301 ++ ")=x^1") 0
                  (store empty_heap 0 init_log) init_log
                  ltac:(vm_compute; reflexivity) eq_refl)).
  exists (ones 4301), "1". split.
  - exists "(", "^", ")", "^".
    repeat split; try (now right); try discriminate;
      vm_compute; reflexivity.
  - intros [[H|H] _]; [discriminate H|].
    vm_compute in H. lia.
Defined.



(** ** [main] *)

Lemma lstrip_ascii (s : string) : is_ascii s = true -> is_ascii (lstrip s) = true.
Proof.
  unfold is_ascii, chars. induction s as [|c s IH]; [reflexivity|].
  cbn [lstrip]. destruct (is_whitespace c); [|exact (fun H => H)].
  cbn. intro H. apply andb_true_iff in H. now apply IH.
Qed.

Lemma rstrip_ascii (s : string) : is_ascii s = true -> is_ascii (rstrip s) = true.
Proof.
  unfold is_ascii, chars. induction s as [|c s IH]; [reflexivity|].
  rewrite rstrip_cons. cbn [list_ascii_of_string forallb].
  intro H. apply andb_true_iff in H. destruct H as [Hc Hs].
  specialize (IH Hs). destruct (rstrip s) as [|c' r].
  - destruct (is_whitespace c); [reflexivity|]. cbn. now rewrite Hc.
  - cbn [list_ascii_of_string forallb] in *. now rewrite Hc, IH.
Qed.

Lemma strip_ascii (s : string) : is_ascii s = true -> is_ascii (strip s) = true.
Proof. intro H. now apply rstrip_ascii, lstrip_ascii. Qed.

(** What the loop does when no analysis raises: one exchange per line
    before the first line that quits, then the farewell if there is such a
    line and the end of input otherwise. *)
Lemma main_loop_runs (m : nat) (sp : option API) (esc : Escapes)
  (stdin : list string) :
  forall l h log,
    h l = Some log ->
    Forall (fun line => Raising.raised m sp esc (strip line) = None)
      (lines_before_quit stdin) ->
    Raising.main_loop m sp esc stdin l h
    = ((flat_map exchange
          (fst (session sp (map strip (lines_before_quit stdin)) log))
        ++ (if has_quit stdin
            then [Prompt prompt; Print farewell]
            else [Prompt prompt]))%list,
       (if has_quit stdin then Returned else Raised "EOFError"),
       skipn (S (List.length (lines_before_quit stdin))) stdin,
       map strip (lines_before_quit stdin)).
Proof.
  unfold has_quit.
  induction stdin as [|line stdin IH]; intros l h log Hl Hok; [reflexivity|].
  cbn [Raising.main_loop lines_before_quit existsb] in *.
  destruct (quits (strip line)) eqn:Q; [reflexivity|].
  inversion Hok as [|x xs Hline Hrest]; subst.
  rewrite (analyze_returns _ _ _ _ _ _ _ Hl Hline).
  cbn [map session orb List.length].
  rewrite (IH l _ (snd (analyze_expression sp (strip line) log))
             (store_same _ _ _) Hrest).
  destruct (analyze_expression sp (strip line) log) as [hint log'].
  cbn [fst snd].
  destruct (session sp (map strip (lines_before_quit stdin)) log')
    as [hints log''].
  reflexivity.
Qed.

(** X15: on ASCII input, when some line quits (it is empty or reads exit,
    in any letter case, once the blanks around it are dropped) and the
    analysis of no earlier line raises, [main] returns normally: after the
    two banner lines it has answered each earlier line, stripped, with the
    hint of a session started on a fresh log, and then said farewell; that
    line and the earlier ones are consumed and the later ones are left
    unread. *)
Theorem main_quits (m : nat) (sp : option API) (esc : Escapes)
  (stdin : list string) :
  forallb is_ascii stdin = true ->
  has_quit stdin = true ->
  Forall (fun line => Raising.raised m sp esc (strip line) = None)
    (lines_before_quit stdin) ->
  Raising.main m sp esc stdin
  = ((Print banner :: Print usage
      :: flat_map exchange
           (fst (session sp (map strip (lines_before_quit stdin)) init_log))
      ++ [Prompt prompt; Print farewell])%list,
     Returned,
     skipn (S (List.length (lines_before_quit stdin))) stdin,
     map strip (lines_before_quit stdin)).
Proof.
  intros _ Hq Hok. unfold Raising.main.
  rewrite (main_loop_runs m sp esc stdin 0 _ init_log (store_same _ _ _) Hok).
  now rewrite Hq.
Qed.

Lemma main_quits_witness :
  Raising.main 4300 None no_escape
    ["d/dx(x^2)=x"; "  ExIt  "; "d/dx(x^2)=x"]
  = ([Print banner; Print usage;
      Prompt prompt;
      Print (hint_prefix ++ snd (fst power_specific_result));
      Prompt prompt; Print farewell],
     Returned, ["d/dx(x^2)=x"], ["d/dx(x^2)=x"]).
Proof.
  apply (main_quits 4300 None no_escape
           ["d/dx(x^2)=x"; "  ExIt  "; "d/dx(x^2)=x"]);
    [reflexivity | reflexivity|].
  repeat constructor.
Defined.

Lemma skipn_past_end {A : Type} (l : list A) : skipn (S (List.length l)) l = [].
Proof. induction l as [|a l IH]; [reflexivity | exact IH]. Qed.

Lemma no_quit_all_lines (stdin : list string) :
  has_quit stdin = false -> lines_before_quit stdin = stdin.
Proof.
  unfold has_quit. induction stdin as [|line stdin IH]; [reflexivity|].
  cbn [existsb lines_before_quit].
  destruct (quits (strip line)); [discriminate|].
  cbn [orb]. intro H. now rewrite (IH H).
Qed.

(** X16: on ASCII input, when no line quits and no analysis raises, [main]
    answers every line and then ends with the [EOFError] of [input], after
    a last prompt and without a farewell. *)
Theorem main_end_of_input (m : nat) (sp : option API) (esc : Escapes)
  (stdin : list string) :
  forallb is_ascii stdin = true ->
  has_quit stdin = false ->
  Forall (fun line => Raising.raised m sp esc (strip line) = None) stdin ->
  Raising.main m sp esc stdin
  = ((Print banner :: Print usage
      :: flat_map exchange (fst (session sp (map strip stdin) init_log))
      ++ [Prompt prompt])%list,
     Raised "EOFError", [], map strip stdin).
Proof.
  intros _ Hq Hok. unfold Raising.main.
  rewrite (main_loop_runs m sp esc stdin 0 _ init_log (store_same _ _ _));
    rewrite (no_quit_all_lines stdin Hq); [|exact Hok].
  now rewrite Hq, skipn_past_end.
Qed.

Lemma main_end_of_input_witness :
  Raising.main 4300 None no_escape ["2+2=4"]
  = ([Print banner; Print usage; Prompt prompt;
      Print (hint_prefix ++ neutral_hint); Prompt prompt],
     Raised "EOFError", [], ["2+2=4"]).
Proof.
  apply (main_end_of_input 4300 None no_escape ["2+2=4"]);
    [reflexivity | reflexivity|].
  repeat constructor.
Defined.

Lemma main_loop_analysed (m : nat) (sp : option API) (esc : Escapes)
  (stdin : list string) (expr : string) :
  forall l h,
    In expr (snd (Raising.main_loop m sp esc stdin l h)) ->
    exists line,
      In line stdin /\ expr = strip line /\ quits (strip line) = false.
Proof.
  induction stdin as [|line stdin IH]; intros l h; [contradiction|].
  cbn [Raising.main_loop].
  destruct (quits (strip line)) eqn:Q; [contradiction|].
  destruct (Raising.analyze_expression m sp esc (strip line) l h)
    as [[[hint|exn] h'] cs].
  - specialize (IH l h').
    destruct (Raising.main_loop m sp esc stdin l h')
      as [[[out outcome] unread] analysed].
    cbn [snd In] in *. intros [<-|H].
    + exists line. cbn [In]. auto.
    + destruct (IH H) as (line' & Hin & Heq & Hq).
      exists line'. cbn [In]. auto.
  - cbn [snd In]. intros [<-|[]]. exists line. cbn [In]. auto.
Qed.

(** X17: on ASCII input, every expression [main] hands to
    [analyze_expression] is non-empty, is not the word exit in any letter
    case, and has no whitespace at either end. *)
Theorem main_analyses_clean_expressions (m : nat) (sp : option API)
  (esc : Escapes) (stdin : list string) (expr : string) :
  forallb is_ascii stdin = true ->
  In expr (snd (Raising.main m sp esc stdin)) ->
  expr <> "" /\ lower expr <> "exit" /\ strip expr = expr
  /\ is_ascii expr = true
  /\ stops is_whitespace expr
  /\ (forall c t, expr = t ++ String c "" -> is_whitespace c = false).
Proof.
  intros Hascii Hin. unfold Raising.main in Hin.
  pose proof (main_loop_analysed m sp esc stdin expr 0
                (store empty_heap 0 init_log)) as H.
  destruct (Raising.main_loop m sp esc stdin 0 (store empty_heap 0 init_log))
    as [[[out outcome] unread] analysed].
  cbn [snd] in *. destruct (H Hin) as (line & Hline & -> & Q).
  unfold quits in Q. apply orb_false_iff in Q. destruct Q as [Q1 Q2].
  apply String.eqb_neq in Q1, Q2.
  repeat split; try assumption.
  - apply strip_idem.
  - apply strip_ascii.
    rewrite forallb_forall in Hascii. now apply Hascii.
  - apply rstrip_keeps_start, lstrip_stops.
  - intros c t. apply rstrip_end.
Qed.

Lemma main_analyses_clean_expressions_witness :
  "d/dx(x^2)=x" <> "" /\ lower "d/dx(x^2)=x" <> "exit"
  /\ strip "d/dx(x^2)=x" = "d/dx(x^2)=x"
  /\ is_ascii "d/dx(x^2)=x" = true
  /\ stops is_whitespace "d/dx(x^2)=x"
  /\ (forall c t, "d/dx(x^2)=x" = t ++ String c "" -> is_whitespace c = false).
Proof.
  apply (main_analyses_clean_expressions 4300 None no_escape
           ["  d/dx(x^2)=x "; "exit"]); [reflexivity|].
  left. reflexivity.
Defined.

Lemma main_loop_aborts (m : nat) (sp : option API) (esc : Escapes)
  (before : list string) (line : string) (after : list string) (exn : string) :
  forall l h log,
    h l = Some log ->
    Forall (fun x => quits (strip x) = false
                     /\ Raising.raised m sp esc (strip x) = None) before ->
    quits (strip line) = false ->
    Raising.raised m sp esc (strip line) = Some exn ->
    Raising.main_loop m sp esc (before ++ line :: after) l h
    = ((flat_map exchange (fst (session sp (map strip before) log))
        ++ [Prompt prompt])%list,
       Raised exn, after, (map strip before ++ [strip line])%list).
Proof.
  induction before as [|x before IH]; intros l h log Hl Hok Q Hr.
  - cbn [app Raising.main_loop map session fst flat_map]. rewrite Q.
    destruct (analyze_raises _ _ _ _ _ _ _ _ Hl Hr) as (h' & cs & ->).
    reflexivity.
  - inversion Hok as [|y ys [Qx Hx] Hrest]; subst.
    cbn [app Raising.main_loop map session]. rewrite Qx.
    rewrite (analyze_returns _ _ _ _ _ _ _ Hl Hx).
    rewrite (IH l _ (snd (analyze_expression sp (strip x) log))
               (store_same _ _ _) Hrest Q Hr).
    destruct (analyze_expression sp (strip x) log) as [hint log'].
    cbn [fst snd].
    destruct (session sp (map strip before) log') as [hints log''].
    reflexivity.
Qed.

(** X23: on ASCII input, when the analysis of a line raises before any line
    quits, [main] is left by that exception: it has answered the earlier
    lines, written the prompt for the line, and says no farewell; the later
    lines are left unread. *)
Theorem main_aborts (m : nat) (sp : option API) (esc : Escapes)
  (before : list string) (line : string) (after : list string) (exn : string) :
  forallb is_ascii (before ++ line :: after) = true ->
  Forall (fun x => quits (strip x) = false
                   /\ Raising.raised m sp esc (strip x) = None) before ->
  quits (strip line) = false ->
  Raising.raised m sp esc (strip line) = Some exn ->
  Raising.main m sp esc (before ++ line :: after)
  = ((Print banner :: Print usage
      :: flat_map exchange (fst (session sp (map strip before) init_log))
      ++ [Prompt prompt])%list,
     Raised exn, after, (map strip before ++ [strip line])%list).
Proof.
  intros _ Hok Q Hr. unfold Raising.main.
  now rewrite (main_loop_aborts m sp esc before line after exn 0 _ init_log
                 (store_same _ _ _) Hok Q Hr).
Qed.

Lemma main_aborts_witness :
  Raising.main 4300 None no_escape
    (["d/dx(x^2)=x"] ++ ("d/dx(x^" ++ ones 4301 ++ ")=x^1") :: ["exit"])
  = ([Print banner; Print usage;
      Prompt prompt;
      Print (hint_prefix ++ snd (fst power_specific_result));
      Prompt prompt],
     Raised "ValueError", ["exit"],
     ["d/dx(x^2)=x"; strip ("d/dx(x^" ++ ones 4301 ++ ")=x^1")]).
Proof.
  apply (main_aborts 4300 None no_escape ["d/dx(x^2)=x"]
           ("d/dx(x^" ++ ones 4301 ++ ")=x^1") ["exit"] "ValueError").
  - vm_compute. reflexivity.
  - repeat constructor.
  - vm_compute. reflexivity.
  - vm_compute. reflexivity.
Defined.
